(** * Yttranscript: the transcript resolver and the /api/convert handler

    A shallow embedding of [src/server.js] (the three-way fallback revision:
    [getTranscript] tries the transcript scraper, then the caption extractor,
    then the captions probe of the Data API, and classifies what went wrong).

    - JavaScript strings are [string]; [String.prototype.includes] and
      [Array.prototype.join] are written out as the language defines them.
    - An [async] function is a computation in the monad [M]: it either
      returns a value or throws a [JsError], and it leaves the list of calls
      it made to the outside world (the two caption packages and the two
      Data API endpoints). What those calls answer is given by a [World].
    - The two later copies of [getTranscript] and the last copy of the
      handler are in the modules [Rev2] and [Rev3]; the three AI endpoints,
      the same in every copy, come after them.
    - Console output is not modelled. *)

From Stdlib Require Import String Ascii List Bool ZArith Lia.
Import ListNotations.

Open Scope string_scope.
Open Scope list_scope.

(** ** JavaScript values and strings *)

(** The values a JSON request field can hold. [undefined] is an absent
    field. Numbers are restricted to the integers; objects and arrays are
    opaque (they are always truthy). *)
Inductive JsValue : Type :=
| JsUndefined
| JsNull
| JsBool (b : bool)
| JsNumber (z : Z)
| JsString (s : string)
| JsObject.

(** ToBoolean, as [if (!videoId)] applies it. *)
Definition truthy (v : JsValue) : bool :=
  match v with
  | JsUndefined => false
  | JsNull => false
  | JsBool b => b
  | JsNumber z => negb (z =? 0)%Z
  | JsString s => negb (s =? "")
  | JsObject => true
  end.

(** [s.includes(p)]: [p] occurs in [s] at some position, compared character
    by character. *)
Fixpoint includes (s p : string) : bool :=
  if prefix p s then true
  else match s with
       | EmptyString => false
       | String _ s' => includes s' p
       end.

(** [arr.join(sep)], as ECMAScript runs it: the result [R] starts empty and,
    for each index [k], gets the separator when [k > 0] and then the
    element. *)
Fixpoint join_from (sep R : string) (k : nat) (arr : list string) : string :=
  match arr with
  | [] => R
  | next :: rest =>
      let R := if (0 <? k)%nat then (R ++ sep)%string else R in
      join_from sep (R ++ next)%string (S k) rest
  end.

Definition join (arr : list string) (sep : string) : string :=
  join_from sep "" 0 arr.

(** Letter case of the ASCII letters, to state what case-insensitive
    matching would mean. *)
Definition toUpperCase_ascii (c : ascii) : ascii :=
  let n := nat_of_ascii c in
  if ((97 <=? n) && (n <=? 122))%nat then ascii_of_nat (n - 32) else c.

Definition toLowerCase_ascii (c : ascii) : ascii :=
  let n := nat_of_ascii c in
  if ((65 <=? n) && (n <=? 90))%nat then ascii_of_nat (n + 32) else c.

Fixpoint string_map (f : ascii -> ascii) (s : string) : string :=
  match s with
  | EmptyString => EmptyString
  | String c s' => String (f c) (string_map f s')
  end.

Definition toUpperCase : string -> string := string_map toUpperCase_ascii.
Definition toLowerCase : string -> string := string_map toLowerCase_ascii.

(** Two messages that differ in letter case only. *)
Definition sameIgnoringCase (a b : string) : Prop :=
  toLowerCase a = toLowerCase b.

(** [p] occurs in [s], stated without the search. *)
Definition occursIn (p s : string) : Prop :=
  exists before after, s = (before ++ p ++ after)%string.

(** Every character of [s] is a space. *)
Fixpoint onlySpaces (s : string) : bool :=
  match s with
  | EmptyString => true
  | String c s' => (c =? " ")%char && onlySpaces s'
  end.

(** ** Errors, results and the outside world *)

(** An [Error] object: its [message], and the [response.data] that the
    Data API client attaches to its errors (absent on [new Error(...)]). *)
Record JsError : Type := mkError {
  message : string;
  response : option string
}.

Definition Error (msg : string) : JsError :=
  {| message := msg; response := None |}.

Inductive Result (A : Type) : Type :=
| Ok (a : A)
| Throw (e : JsError).
Arguments Ok {A} a.
Arguments Throw {A} e.

(** The calls that leave the process. *)
Inductive Call : Type :=
| VideosList (id : JsValue)          (* youtube.videos.list *)
| FetchTranscript (videoId : JsValue) (* YoutubeTranscript.fetchTranscript *)
| GetSubtitles (videoID : JsValue)    (* getSubtitles, lang 'en' *)
| CaptionsList (videoId : JsValue).   (* youtube.captions.list *)

(** One timed caption segment; only [text] is read. *)
Record Segment : Type := mkSegment { text : string }.

(** One item of [videoResponse.data.items]. *)
Record VideoItem : Type := mkVideoItem { snippet_title : string }.

(** One caption track of [captionsResponse.data.items]. *)
Record CaptionTrack : Type := mkTrack { track_id : string }.

(** What the outside answers. An array that may be [null] or [undefined]
    is an [option (list _)]. *)
Record World : Type := mkWorld {
  API_KEY : option string;
  youtube_videos_list : JsValue -> Result (option (list VideoItem));
  YoutubeTranscript_fetchTranscript : JsValue -> Result (option (list Segment));
  getSubtitles : JsValue -> Result (option (list Segment));
  youtube_captions_list : JsValue -> Result (option (list CaptionTrack))
}.

(** ** The monad of async functions *)

Definition M (A : Type) : Type := (Result A * list Call)%type.

Definition ret {A} (a : A) : M A := (Ok a, []).

Definition throw {A} (e : JsError) : M A := (Throw e, []).

Definition bind {A B} (m : M A) (k : A -> M B) : M B :=
  match m with
  | (Ok a, calls) => let (r, calls') := k a in (r, calls ++ calls')
  | (Throw e, calls) => (Throw e, calls)
  end.

(** [try { body } catch (error) { handler }] *)
Definition try_catch {A} (body : M A) (handler : JsError -> M A) : M A :=
  match body with
  | (Ok a, calls) => (Ok a, calls)
  | (Throw e, calls) => let (r, calls') := handler e in (r, calls ++ calls')
  end.

(** [await] of an outside call. *)
Definition await {A} (c : Call) (answer : Result A) : M A := (answer, [c]).

Notation "x <- m ;; k" := (bind m (fun x => k))
  (at level 61, m at next level, right associativity).

(** [arr && arr.length > 0] *)
Definition nonEmpty {A} (arr : option (list A)) : bool :=
  match arr with
  | Some (_ :: _) => true
  | _ => false
  end.

(** An adapter call that gave at least one segment. *)
Definition succeeded {A} (answer : Result (option (list A))) : bool :=
  match answer with
  | Ok arr => nonEmpty arr
  | Throw _ => false
  end.

(** [!arr || arr.length === 0] *)
Definition missingOrEmpty {A} (arr : option (list A)) : bool :=
  match arr with
  | None => true
  | Some [] => true
  | Some (_ :: _) => false
  end.

(** [arr.map(item => item.text).join(' ')] on an array known to be there. *)
Definition joinText (arr : option (list Segment)) : string :=
  match arr with
  | Some items => join (map text items) " "
  | None => ""
  end.

(** ** getTranscript *)

Definition MSG_CAPTIONS_EXIST : string :=
  "Captions exist but could not be accessed. The video might have restricted captions.".
Definition MSG_NO_CAPTIONS : string :=
  "This video does not have available captions. Please try a different video.".
Definition MSG_UNAVAILABLE : string :=
  "This video is private or unavailable.".
Definition MSG_FETCH_FAILED : string :=
  "Failed to fetch transcript. Please make sure the video has captions enabled and try again.".

(** Where control is after one of the three [try] blocks: the function has
    returned a transcript, or it goes on with the [errors] array. *)
Inductive Step : Type :=
| Return (transcript : string)
| Next (errors : list string).

(** Method 1: YouTube Transcript API. *)
Definition method1 (w : World) (videoId : JsValue) (errors : list string) : M Step :=
  try_catch
    (transcriptItems <- await (FetchTranscript videoId)
                              (YoutubeTranscript_fetchTranscript w videoId) ;;
     if nonEmpty transcriptItems
     then ret (Return (joinText transcriptItems))
     else ret (Next errors))
    (fun error => ret (Next (errors ++ [message error]))).

(** Method 2: YouTube Caption Extractor. *)
Definition method2 (w : World) (videoId : JsValue) (errors : list string) : M Step :=
  try_catch
    (subtitles <- await (GetSubtitles videoId) (getSubtitles w videoId) ;;
     if nonEmpty subtitles
     then ret (Return (joinText subtitles))
     else ret (Next errors))
    (fun error => ret (Next (errors ++ [message error]))).

(** Method 3: the Data API. The [throw] is inside the [try]. *)
Definition method3 (w : World) (videoId : JsValue) (errors : list string) : M Step :=
  try_catch
    (captionsResponse <- await (CaptionsList videoId)
                               (youtube_captions_list w videoId) ;;
     if nonEmpty captionsResponse
     then throw (Error MSG_CAPTIONS_EXIST)
     else ret (Next errors))
    (fun error => ret (Next (errors ++ [message error]))).

(** The three methods in order, up to the point where all have failed. *)
Definition tryMethods (w : World) (videoId : JsValue) : M Step :=
  s1 <- method1 w videoId [] ;;
  match s1 with
  | Return t => ret (Return t)
  | Next errors =>
      s2 <- method2 w videoId errors ;;
      match s2 with
      | Return t => ret (Return t)
      | Next errors => method3 w videoId errors
      end
  end.

(** The two predicates given to [errors.some]. *)
Definition saysNoCaptions (e : string) : bool :=
  includes e "Could not find automatic captions" ||
  includes e "Transcript is disabled" ||
  includes e "subtitles are disabled".

Definition saysUnavailable (e : string) : bool :=
  includes e "private" || includes e "unavailable".

(** The same two tests, stated on occurrences. *)
Definition mentionsNoCaptions (e : string) : Prop :=
  occursIn "Could not find automatic captions" e \/
  occursIn "Transcript is disabled" e \/
  occursIn "subtitles are disabled" e.

Definition mentionsUnavailable (e : string) : Prop :=
  occursIn "private" e \/ occursIn "unavailable" e.

(** The final [if / else if / else]: the message of the error thrown. *)
Definition classify (errors : list string) : string :=
  if existsb saysNoCaptions errors then MSG_NO_CAPTIONS
  else if existsb saysUnavailable errors then MSG_UNAVAILABLE
  else MSG_FETCH_FAILED.

Definition getTranscript (w : World) (videoId : JsValue) : M string :=
  s <- tryMethods w videoId ;;
  match s with
  | Return t => ret t
  | Next errors => throw (Error (classify errors))
  end.

(** ** POST /api/convert *)

Record Request : Type := mkRequest { body_videoId : JsValue }.

(** [res.status(status).json(body)]; a field not in the body is [None].
    [details] is [Some None] for [details: null]. *)
Record Response : Type := mkResponse {
  status : Z;
  success : bool;
  res_text : option string;
  videoTitle : option string;
  error : option string;
  details : option (option string)
}.

Definition failure (st : Z) (msg : string) : Response :=
  {| status := st; success := false; res_text := None; videoTitle := None;
     error := Some msg; details := None |}.

Definition keyPresent (k : option string) : bool :=
  match k with
  | Some s => negb (s =? "")
  | None => false
  end.

Definition firstTitle (items : option (list VideoItem)) : option string :=
  match items with
  | Some (item :: _) => Some (snippet_title item)
  | _ => None
  end.

(** The status chosen in the [catch] block. *)
Definition statusCode (msg : string) : Z :=
  if includes msg "not have automatic captions" then 400%Z
  else if includes msg "Video not found" || includes msg "unavailable" then 404%Z
  else 500%Z.

Definition convert (w : World) (req : Request) : M Response :=
  try_catch
    (let videoId := body_videoId req in
     if negb (truthy videoId) then
       ret (failure 400 "Video ID is required")
     else if negb (keyPresent (API_KEY w)) then
       ret (failure 500 "YouTube API key is not configured")
     else
       items <- await (VideosList videoId) (youtube_videos_list w videoId) ;;
       if missingOrEmpty items then
         ret (failure 404 "Video not found")
       else
         transcript <- getTranscript w videoId ;;
         ret {| status := 200; success := true;
                res_text := Some transcript;
                videoTitle := firstTitle items;
                error := None; details := None |})
    (fun error =>
       ret {| status := statusCode (message error); success := false;
              res_text := None; videoTitle := None;
              error := Some (message error);
              details := Some (response error) |}).

(** ** Mocked worlds

    The outside is substituted by fixed answers: the key is configured, the
    metadata lookup finds the video, and the three caption sources answer
    [a], [b] and [c] whatever the video. *)

Definition mockWorld (a b : Result (option (list Segment)))
    (c : Result (option (list CaptionTrack))) : World :=
  {| API_KEY := Some "test-key";
     youtube_videos_list := fun _ => Ok (Some [mkVideoItem "A video"]);
     YoutubeTranscript_fetchTranscript := fun _ => a;
     getSubtitles := fun _ => b;
     youtube_captions_list := fun _ => c |}.

Definition someVideo : JsValue := JsString "dQw4w9WgXcQ".

Definition someRequest : Request := {| body_videoId := someVideo |}.

(** The scraper fails, the extractor finds nothing, the probe sees a track. *)
Definition restrictedWorld : World :=
  mockWorld (Throw (Error "Network error")) (Ok (Some []))
            (Ok (Some [mkTrack "en-track"])).

(** The scraper reports disabled captions; nothing else is found. *)
Definition disabledWorld : World :=
  mockWorld (Throw (Error "Transcript is disabled on this video"))
            (Ok (Some [])) (Ok (Some [])).

(** No source fails, and none has anything. *)
Definition emptyWorld : World :=
  mockWorld (Ok (Some [])) (Ok (Some [])) (Ok (Some [])).

Definition helloWorld : World :=
  mockWorld (Ok (Some [mkSegment "Hello"; mkSegment "world"]))
            (Ok None) (Ok None).

(** The scraper returns two segments without text. *)
Definition blankWorld : World :=
  mockWorld (Ok (Some [mkSegment ""; mkSegment ""])) (Ok None) (Ok None).

(** One message of each specific kind. *)
Definition mixedErrors : list string :=
  ["Transcript is disabled on this video"; "Video unavailable"].

(** ** The second revision of getTranscript

    The later copy of the file probes the captions endpoint first, tolerates
    a 403 there, then asks the scraper only, and rewrites whatever was
    thrown in one outer [catch]. *)

Module Rev2.

Definition MSG_PERMISSIONS : string :=
  "YouTube API key does not have proper permissions. Please enable YouTube Data API v3 and Captions endpoint.".
Definition MSG_NO_CAPTIONS : string :=
  "This video does not have captions available.".
Definition MSG_UNAVAILABLE : string :=
  "The video is unavailable or private.".

(** The inner [try]: the answer of the probe is only logged; an error is
    swallowed when its message mentions 403 and thrown again otherwise. *)
Definition checkCaptions (w : World) (videoId : JsValue) : M unit :=
  try_catch
    (captionsResponse <- await (CaptionsList videoId)
                               (youtube_captions_list w videoId) ;;
     ret tt)
    (fun apiError =>
       if includes (message apiError) "403" then ret tt else throw apiError).

(** The probe lets the scraper run: it answered, or its error mentions 403. *)
Definition probePasses (w : World) (videoId : JsValue) : bool :=
  match youtube_captions_list w videoId with
  | Ok _ => true
  | Throw apiError => includes (message apiError) "403"
  end.

(** The error thrown by the outer [catch] for the [error] it caught. *)
Definition rethrown (error : JsError) : JsError :=
  if includes (message error) "403" then Error MSG_PERMISSIONS
  else if includes (message error) "Could not find automatic captions" ||
          includes (message error) "Transcript is disabled"
       then Error MSG_NO_CAPTIONS
  else if includes (message error) "Video is unavailable"
       then Error MSG_UNAVAILABLE
  else Error ("Failed to fetch transcript: " ++ message error)%string.

Definition getTranscript (w : World) (videoId : JsValue) : M string :=
  try_catch
    (_ <- checkCaptions w videoId ;;
     transcriptItems <- await (FetchTranscript videoId)
                              (YoutubeTranscript_fetchTranscript w videoId) ;;
     if missingOrEmpty transcriptItems
     then throw (Error "No transcript items found")
     else ret (joinText transcriptItems))
    (fun error => throw (rethrown error)).

End Rev2.

(** ** The third revision: one source, one message, no guards *)

Module Rev3.

Definition MSG_COULD_NOT_FETCH : string :=
  "Could not fetch transcript. Make sure the video has captions available.".

(** [transcriptItems.map] on [null] or [undefined] is a TypeError raised
    inside the [try]; the [catch] does not read the error it gets. *)
Definition getTranscript (w : World) (videoId : JsValue) : M string :=
  try_catch
    (transcriptItems <- await (FetchTranscript videoId)
                              (YoutubeTranscript_fetchTranscript w videoId) ;;
     match transcriptItems with
     | Some items => ret (join (map text items) " ")
     | None => throw (Error "TypeError")
     end)
    (fun _ => throw (Error MSG_COULD_NOT_FETCH)).

Definition convert (w : World) (req : Request) : M Response :=
  try_catch
    (let videoId := body_videoId req in
     items <- await (VideosList videoId) (youtube_videos_list w videoId) ;;
     if missingOrEmpty items then
       throw (Error "Video not found")
     else
       transcript <- getTranscript w videoId ;;
       ret {| status := 200; success := true;
              res_text := Some transcript;
              videoTitle := firstTitle items;
              error := None; details := None |})
    (fun error =>
       ret {| status := 500; success := false;
              res_text := None; videoTitle := None;
              error := Some (message error);
              details := Some (response error) |}).

End Rev3.

(** ** The three AI endpoints

    The same in every revision. The model of the hosted LLM is a function
    from the prompt to the text it answers, or to the error it throws. A
    body field is [None] when the request does not have it; the fields that
    are there are strings. *)

Definition LF : string := String "010"%char "".
Definition DQ : string := String "034"%char "".
Definition INDENT : string := "                       ".

Record AiWorld : Type := mkAiWorld {
  generateContent : string -> Result string;
  (* the message of the TypeError for a method call on [undefined] *)
  cannotRead : string -> string
}.

Record AiResponse : Type := mkAiResponse {
  ai_status : Z;
  ai_success : bool;
  answer : option string;
  summary : option string;
  ai_error : option string
}.

(** What an AI handler leaves: the response, and the prompts it sent. *)
Definition Ai : Type := (AiResponse * list string)%type.

Definition aiFailure (e : JsError) : AiResponse :=
  {| ai_status := 500; ai_success := false; answer := None; summary := None;
     ai_error := Some (message e) |}.

(** [`${v}`]: an absent field reads "undefined". *)
Definition interpolate (v : option string) : string :=
  match v with
  | Some s => s
  | None => "undefined"
  end.

(** One entry of [history]. *)
Record ChatMessage : Type := mkChatMessage { role : string; content : string }.

Record AskBody : Type := mkAskBody {
  question : option string;
  transcript : option string;
  history : option (list ChatMessage)
}.

Definition historyLine (msg : ChatMessage) : string :=
  ((if role msg =? "user" then "Human" else "Assistant") ++ ": " ++
   content msg)%string.

Definition conversationContext (history : option (list ChatMessage)) : string :=
  if nonEmpty history then
    match history with
    | Some msgs =>
        ("Previous conversation:" ++ LF ++
         join (map historyLine msgs) LF ++
         LF ++ LF ++ "Now, ")%string
    | None => ""
    end
  else "".

Definition askPrompt (transcript : string) (context : string)
    (question : option string) : string :=
  ("Based on this video transcript: " ++ DQ ++
   substring 0 5000 transcript ++ "..." ++ DQ ++ LF ++
   INDENT ++ context ++ "please answer this question: " ++
   interpolate question ++ LF ++
   INDENT ++ "Please provide a clear and concise response based on the video content. Make it 3-4 sentences.")%string.

(** POST /api/ask-ai *)
Definition ask_ai (ai : AiWorld) (body : AskBody) : Ai :=
  let context := conversationContext (history body) in
  match transcript body with
  | None => (aiFailure (Error (cannotRead ai "substring")), [])
  | Some transcript =>
      let prompt := askPrompt transcript context (question body) in
      match generateContent ai prompt with
      | Ok text =>
          ({| ai_status := 200; ai_success := true; answer := Some text;
              summary := None; ai_error := None |}, [prompt])
      | Throw error => (aiFailure error, [prompt])
      end
  end.

Definition summarizePrompt (text : string) : string :=
  ("Please provide a concise summary of the following text: " ++
   substring 0 5000 text ++ "...")%string.

(** POST /api/summarize *)
Definition summarize (ai : AiWorld) (body_text : option string) : Ai :=
  match body_text with
  | None => (aiFailure (Error (cannotRead ai "substring")), [])
  | Some text =>
      let prompt := summarizePrompt text in
      match generateContent ai prompt with
      | Ok summary =>
          ({| ai_status := 200; ai_success := true; answer := None;
              summary := Some summary; ai_error := None |}, [prompt])
      | Throw error => (aiFailure error, [prompt])
      end
  end.

Definition expandPrompt (text : string) (currentSummary : option string) : string :=
  ("Based on this video transcript: " ++ DQ ++
   substring 0 5000 text ++ "..." ++ DQ ++ LF ++
   INDENT ++ LF ++
   INDENT ++ "Current summary: " ++ DQ ++ interpolate currentSummary ++ DQ ++ LF ++
   INDENT ++ LF ++
   INDENT ++ "Please add 2 sentences that provide additional details, specific examples, or key concepts that weren't mentioned in the current summary. " ++ LF ++
   INDENT ++ "Focus on interesting or important information that adds value to the summary." ++ LF ++
   INDENT ++ "Do not repeat information that's already in the summary." ++ LF ++
   INDENT ++ "Return the complete text (current summary + new detailed sentences)." ++ LF ++
   INDENT ++ "Make the transition between the current summary and new information smooth.")%string.

(** POST /api/expand-summary *)
Definition expand_summary (ai : AiWorld) (body_text : option string)
    (currentSummary : option string) : Ai :=
  match body_text with
  | None => (aiFailure (Error (cannotRead ai "substring")), [])
  | Some text =>
      let prompt := expandPrompt text currentSummary in
      match generateContent ai prompt with
      | Ok expandedSummary =>
          ({| ai_status := 200; ai_success := true; answer := None;
              summary := Some expandedSummary; ai_error := None |}, [prompt])
      | Throw error => (aiFailure error, [prompt])
      end
  end.

(** What every AI endpoint keeps to, [prompt] being the prompt built from
    the body, or [None] when the body lacks the text the prompt is cut
    from. Without it no prompt is sent and the answer is 500 with the
    engine's TypeError message. With it, that prompt and no other is sent
    to the model; the answer is 200 with the model's text in the field
    [out] when the model answers, and 500 with the model's own error
    message when it throws. *)
Definition aiContract (ai : AiWorld) (out : AiResponse -> option string)
    (prompt : option string) (r : Ai) : Prop :=
  let (res, prompts) := r in
  (prompt = None ->
   prompts = [] /\
   ai_status res = 500%Z /\ ai_success res = false /\
   out res = None /\ ai_error res = Some (cannotRead ai "substring")) /\
  (forall p, prompt = Some p ->
   prompts = [p] /\
   (forall text, generateContent ai p = Ok text ->
      ai_status res = 200%Z /\ ai_success res = true /\
      out res = Some text /\ ai_error res = None) /\
   (forall e, generateContent ai p = Throw e ->
      ai_status res = 500%Z /\ ai_success res = false /\
      out res = None /\ ai_error res = Some (message e))).

(** ** What is recorded when the resolver is exhausted *)

(** The entry a [catch] block pushes for an answer. *)
Definition thrownMessage {A} (answer : Result A) : list string :=
  match answer with
  | Throw e => [message e]
  | Ok _ => []
  end.

(** The entry method 3 pushes: the message of the probe's error, or of its
    own error when the probe finds tracks. *)
Definition probeMessage (answer : Result (option (list CaptionTrack))) : list string :=
  match answer with
  | Throw e => [message e]
  | Ok tracks => if nonEmpty tracks then [MSG_CAPTIONS_EXIST] else []
  end.

(** A text of [n] times the character [c]. *)
Fixpoint repeatChar (c : ascii) (n : nat) : string :=
  match n with
  | O => EmptyString
  | S n' => String c (repeatChar c n')
  end.

(** More mocked worlds. *)
Definition echoAi : AiWorld :=
  {| generateContent := fun prompt => Ok "A summary.";
     cannotRead := fun p =>
       ("Cannot read properties of undefined (reading '" ++ p ++ "')")%string |}.

Definition downAi : AiWorld :=
  {| generateContent := fun prompt => Throw (Error "503 Service Unavailable");
     cannotRead := fun p =>
       ("Cannot read properties of undefined (reading '" ++ p ++ "')")%string |}.

(** * Properties *)

(** ** Strings *)

Lemma string_app_assoc (a b c : string) :
  ((a ++ b) ++ c)%string = (a ++ (b ++ c))%string.
Proof.
  induction a as [|ch a IH]; simpl; [reflexivity|].
  now rewrite IH.
Qed.

Lemma string_app_nil_r (a : string) : (a ++ "")%string = a.
Proof.
  induction a as [|ch a IH]; simpl; [reflexivity|].
  now rewrite IH.
Qed.

Lemma prefix_iff (p s : string) :
  prefix p s = true <-> exists after, s = (p ++ after)%string.
Proof.
  revert s.
  induction p as [|a p IH]; intros s; simpl.
  - destruct s; split; eauto.
  - destruct s as [|b s].
    + split; [discriminate|]. intros [after H]. discriminate H.
    + simpl. destruct (ascii_dec a b) as [->|Hne].
      * rewrite IH. split; intros [after H]; exists after.
        -- now rewrite H.
        -- now inversion H.
      * split; [discriminate|]. intros [after H]. injection H as Hab _. congruence.
Qed.

(** [includes] finds exactly the occurrences. *)
Lemma includes_iff (s p : string) :
  includes s p = true <-> occursIn p s.
Proof.
  unfold occursIn.
  induction s as [|c s IH]; cbn [includes].
  - destruct (prefix p "") eqn:Hp.
    + split; [intros _|reflexivity].
      apply prefix_iff in Hp. destruct Hp as [after H].
      now exists "", after.
    + split; [discriminate|].
      intros (before & after & H). exfalso.
      destruct before; [|discriminate H]. simpl in H.
      assert (Ht : prefix p "" = true) by (apply prefix_iff; eauto).
      congruence.
  - destruct (prefix p (String c s)) eqn:Hp.
    + split; [intros _|reflexivity].
      apply prefix_iff in Hp. destruct Hp as [after H].
      now exists "", after.
    + rewrite IH. split.
      * intros (before & after & H). exists (String c before), after.
        simpl. now rewrite H.
      * intros (before & after & H). destruct before as [|c' before].
        -- exfalso. simpl in H.
           assert (Ht : prefix p (String c s) = true)
             by (apply prefix_iff; eauto).
           congruence.
        -- simpl in H. inversion H. eauto.
Qed.

Lemma includes_false_iff (s p : string) :
  includes s p = false <-> ~ occursIn p s.
Proof.
  rewrite <- includes_iff.
  destruct (includes s p); intuition congruence.
Qed.

(** Past the first element, [join_from] appends the separator before each
    element that is left. *)
Lemma join_from_later (sep : string) (arr : list string) :
  forall R k,
    join_from sep R (S k) arr =
    (R ++ match arr with
          | [] => ""
          | _ :: _ => sep ++ String.concat sep arr
          end)%string.
Proof.
  induction arr as [|x rest IH]; intros R k.
  - simpl. now rewrite string_app_nil_r.
  - cbn [join_from]. replace (0 <? S k)%nat with true by reflexivity.
    rewrite IH. destruct rest as [|y rest].
    + cbn [String.concat]. now rewrite string_app_nil_r, string_app_assoc.
    + cbn [String.concat]. now rewrite !string_app_assoc.
Qed.

(** [join] is the library's [concat]: the elements in order, one separator
    between two neighbours. *)
Lemma join_concat (arr : list string) (sep : string) :
  join arr sep = String.concat sep arr.
Proof.
  unfold join. destruct arr as [|x rest]; [reflexivity|].
  cbn [join_from]. replace (0 <? 0)%nat with false by reflexivity.
  rewrite join_from_later. destruct rest; cbn [String.concat append].
  - now rewrite string_app_nil_r.
  - reflexivity.
Qed.

(** ** The three methods, one at a time *)

Ltac unfold_M :=
  unfold await, bind, try_catch, ret, throw, joinText, nonEmpty.

Section Methods.
Variable w : World.
Variable videoId : JsValue.
Variable errors : list string.

Lemma method1_found item rest :
  YoutubeTranscript_fetchTranscript w videoId = Ok (Some (item :: rest)) ->
  method1 w videoId errors =
  (Ok (Return (join (map text (item :: rest)) " ")),
   [FetchTranscript videoId]).
Proof. intros H. unfold method1. unfold_M. now rewrite H. Qed.

Lemma method1_nothing arr :
  YoutubeTranscript_fetchTranscript w videoId = Ok arr ->
  nonEmpty arr = false ->
  method1 w videoId errors = (Ok (Next errors), [FetchTranscript videoId]).
Proof.
  intros H Hne. unfold method1. unfold_M. rewrite H.
  destruct arr as [[|x l]|]; [reflexivity|discriminate Hne|reflexivity].
Qed.

Lemma method1_throws e :
  YoutubeTranscript_fetchTranscript w videoId = Throw e ->
  method1 w videoId errors =
  (Ok (Next (errors ++ [message e])), [FetchTranscript videoId]).
Proof. intros H. unfold method1. unfold_M. now rewrite H. Qed.

Lemma method2_found item rest :
  getSubtitles w videoId = Ok (Some (item :: rest)) ->
  method2 w videoId errors =
  (Ok (Return (join (map text (item :: rest)) " ")),
   [GetSubtitles videoId]).
Proof. intros H. unfold method2. unfold_M. now rewrite H. Qed.

Lemma method2_nothing arr :
  getSubtitles w videoId = Ok arr ->
  nonEmpty arr = false ->
  method2 w videoId errors = (Ok (Next errors), [GetSubtitles videoId]).
Proof.
  intros H Hne. unfold method2. unfold_M. rewrite H.
  destruct arr as [[|x l]|]; [reflexivity|discriminate Hne|reflexivity].
Qed.

Lemma method2_throws e :
  getSubtitles w videoId = Throw e ->
  method2 w videoId errors =
  (Ok (Next (errors ++ [message e])), [GetSubtitles videoId]).
Proof. intros H. unfold method2. unfold_M. now rewrite H. Qed.

(** The error thrown when tracks exist is caught by the [catch] of the
    same block: it becomes one more entry of [errors]. *)
Lemma method3_tracks arr :
  youtube_captions_list w videoId = Ok arr ->
  nonEmpty arr = true ->
  method3 w videoId errors =
  (Ok (Next (errors ++ [MSG_CAPTIONS_EXIST])), [CaptionsList videoId]).
Proof.
  intros H Hne. unfold method3. unfold_M. rewrite H.
  destruct arr as [[|x l]|]; [discriminate Hne|reflexivity|discriminate Hne].
Qed.

Lemma method3_no_tracks arr :
  youtube_captions_list w videoId = Ok arr ->
  nonEmpty arr = false ->
  method3 w videoId errors = (Ok (Next errors), [CaptionsList videoId]).
Proof.
  intros H Hne. unfold method3. unfold_M. rewrite H.
  destruct arr as [[|x l]|]; [reflexivity|discriminate Hne|reflexivity].
Qed.

Lemma method3_throws e :
  youtube_captions_list w videoId = Throw e ->
  method3 w videoId errors =
  (Ok (Next (errors ++ [message e])), [CaptionsList videoId]).
Proof. intros H. unfold method3. unfold_M. now rewrite H. Qed.

(** The probe never returns a transcript, and never throws out of
    [getTranscript]. *)
Lemma method3_next :
  exists errors', method3 w videoId errors =
                  (Ok (Next errors'), [CaptionsList videoId]).
Proof.
  destruct (youtube_captions_list w videoId) as [arr|e] eqn:H.
  - destruct (nonEmpty arr) eqn:Hne.
    + eexists. now apply method3_tracks with arr.
    + eexists. now apply method3_no_tracks with arr.
  - eexists. apply method3_throws. exact H.
Qed.
End Methods.

(** ** The classifier *)

Lemma classify_fixed (errors : list string) :
  In (classify errors) [MSG_NO_CAPTIONS; MSG_UNAVAILABLE; MSG_FETCH_FAILED].
Proof.
  unfold classify.
  destruct (existsb saysNoCaptions errors); [now left|].
  destruct (existsb saysUnavailable errors); simpl; auto.
Qed.

Lemma classify_not_captions_exist (errors : list string) :
  classify errors <> MSG_CAPTIONS_EXIST.
Proof.
  destruct (classify_fixed errors) as [H|[H|[H|[]]]]; rewrite <- H;
    discriminate.
Qed.

(** The message pushed by method 3 carries none of the phrases looked for. *)
Lemma classify_ignores_captions_exist (errors : list string) :
  classify (errors ++ [MSG_CAPTIONS_EXIST]) = classify errors.
Proof.
  unfold classify. rewrite !existsb_app. cbn [existsb].
  replace (saysNoCaptions MSG_CAPTIONS_EXIST) with false by reflexivity.
  replace (saysUnavailable MSG_CAPTIONS_EXIST) with false by reflexivity.
  now rewrite !orb_false_r.
Qed.

Lemma classify_no_captions_iff (errors : list string) :
  classify errors = MSG_NO_CAPTIONS <-> existsb saysNoCaptions errors = true.
Proof.
  unfold classify. destruct (existsb saysNoCaptions errors).
  - tauto.
  - destruct (existsb saysUnavailable errors); split; discriminate.
Qed.

Lemma classify_unavailable_iff (errors : list string) :
  classify errors = MSG_UNAVAILABLE <->
  existsb saysNoCaptions errors = false /\
  existsb saysUnavailable errors = true.
Proof.
  unfold classify. destruct (existsb saysNoCaptions errors).
  - split; [discriminate|]. intros [H _]. discriminate H.
  - destruct (existsb saysUnavailable errors).
    + tauto.
    + split; [discriminate|]. intros [_ H]. discriminate H.
Qed.

Lemma classify_fetch_failed_iff (errors : list string) :
  classify errors = MSG_FETCH_FAILED <->
  existsb saysNoCaptions errors = false /\
  existsb saysUnavailable errors = false.
Proof.
  unfold classify. destruct (existsb saysNoCaptions errors).
  - split; [discriminate|]. intros [H _]. discriminate H.
  - destruct (existsb saysUnavailable errors).
    + split; [discriminate|]. intros [_ H]. discriminate H.
    + tauto.
Qed.

(** ** The resolver *)

Lemma bind_ok {A B} (a : A) (calls : list Call) (k : A -> M B) :
  bind (Ok a, calls) k = (fst (k a), calls ++ snd (k a)).
Proof. unfold bind. now destruct (k a). Qed.

Lemma nonEmpty_cons {A} (items : list A) :
  items <> [] -> exists item rest, items = item :: rest.
Proof. destruct items as [|item rest]; [congruence|eauto]. Qed.

Lemma succeeded_false {A} (answer : Result (option (list A))) :
  succeeded answer = false ->
  (exists arr, answer = Ok arr /\ nonEmpty arr = false) \/
  (exists e, answer = Throw e).
Proof. destruct answer as [arr|e]; simpl; eauto. Qed.

Section Resolver.
Variable w : World.
Variable videoId : JsValue.

(** When method 1 returns, nothing else runs. *)
Lemma getTranscript_first item rest :
  YoutubeTranscript_fetchTranscript w videoId = Ok (Some (item :: rest)) ->
  getTranscript w videoId =
  (Ok (join (map text (item :: rest)) " "), [FetchTranscript videoId]).
Proof.
  intros H. unfold getTranscript, tryMethods.
  rewrite (method1_found w videoId [] item rest H).
  reflexivity.
Qed.

(** Method 1 fails, method 2 has nothing: method 3 decides the [errors]
    that are classified. *)
Lemma getTranscript_third e subtitles errors :
  YoutubeTranscript_fetchTranscript w videoId = Throw e ->
  getSubtitles w videoId = Ok subtitles ->
  nonEmpty subtitles = false ->
  method3 w videoId [message e] =
  (Ok (Next errors), [CaptionsList videoId]) ->
  getTranscript w videoId =
  (Throw (Error (classify errors)),
   [FetchTranscript videoId; GetSubtitles videoId; CaptionsList videoId]).
Proof.
  intros HA HB Hne HC. unfold getTranscript, tryMethods.
  rewrite (method1_throws w videoId [] e HA), bind_ok.
  cbn [app].
  rewrite (method2_nothing w videoId [message e] subtitles HB Hne), bind_ok.
  rewrite HC. reflexivity.
Qed.
End Resolver.

Lemma succeeded_true {A} (answer : Result (option (list A))) :
  succeeded answer = true ->
  exists item rest, answer = Ok (Some (item :: rest)).
Proof.
  destruct answer as [[[|item rest]|]|e]; simpl; try discriminate; eauto.
Qed.

Section Fallback.
Variable w : World.
Variable videoId : JsValue.

(** Method 1 gives nothing or fails: it goes on, with at most its own
    message recorded. *)
Lemma method1_goes_on :
  succeeded (YoutubeTranscript_fetchTranscript w videoId) = false ->
  exists errors,
    method1 w videoId [] = (Ok (Next errors), [FetchTranscript videoId]).
Proof.
  intros H. apply succeeded_false in H.
  destruct H as [(arr & HA & Hne)|(e & HA)]; eexists.
  - now apply method1_nothing with arr.
  - apply method1_throws. exact HA.
Qed.

Lemma method2_goes_on errors :
  succeeded (getSubtitles w videoId) = false ->
  exists errors',
    method2 w videoId errors = (Ok (Next errors'), [GetSubtitles videoId]).
Proof.
  intros H. apply succeeded_false in H.
  destruct H as [(arr & HB & Hne)|(e & HB)]; eexists.
  - now apply method2_nothing with arr.
  - apply method2_throws. exact HB.
Qed.

Lemma getTranscript_second item rest :
  succeeded (YoutubeTranscript_fetchTranscript w videoId) = false ->
  getSubtitles w videoId = Ok (Some (item :: rest)) ->
  getTranscript w videoId =
  (Ok (join (map text (item :: rest)) " "),
   [FetchTranscript videoId; GetSubtitles videoId]).
Proof.
  intros HA HB. destruct (method1_goes_on HA) as [errors H1].
  unfold getTranscript, tryMethods.
  rewrite H1, bind_ok. cbn [app].
  rewrite (method2_found w videoId errors item rest HB).
  reflexivity.
Qed.

(** All three methods ran and none returned: the error thrown carries
    the classification of the collected messages. *)
Lemma getTranscript_exhausted :
  succeeded (YoutubeTranscript_fetchTranscript w videoId) = false ->
  succeeded (getSubtitles w videoId) = false ->
  exists errors,
    getTranscript w videoId =
    (Throw (Error (classify errors)),
     [FetchTranscript videoId; GetSubtitles videoId; CaptionsList videoId]).
Proof.
  intros HA HB. destruct (method1_goes_on HA) as [errors1 H1].
  destruct (method2_goes_on errors1 HB) as [errors2 H2].
  destruct (method3_next w videoId errors2) as [errors3 H3].
  exists errors3. unfold getTranscript, tryMethods.
  rewrite H1, bind_ok. cbn [app].
  rewrite H2, bind_ok. rewrite H3. reflexivity.
Qed.

(** A transcript comes from the first source that has segments. *)
Lemma getTranscript_success_inv t calls :
  getTranscript w videoId = (Ok t, calls) ->
  (exists item rest,
      YoutubeTranscript_fetchTranscript w videoId = Ok (Some (item :: rest)) /\
      t = join (map text (item :: rest)) " " /\
      calls = [FetchTranscript videoId]) \/
  (succeeded (YoutubeTranscript_fetchTranscript w videoId) = false /\
   exists item rest,
      getSubtitles w videoId = Ok (Some (item :: rest)) /\
      t = join (map text (item :: rest)) " " /\
      calls = [FetchTranscript videoId; GetSubtitles videoId]).
Proof.
  intros H.
  destruct (succeeded (YoutubeTranscript_fetchTranscript w videoId)) eqn:HA.
  - left. apply succeeded_true in HA. destruct HA as (item & rest & HA).
    rewrite (getTranscript_first w videoId item rest HA) in H.
    injection H as Ht Hc. eauto.
  - right. split; [reflexivity|].
    destruct (succeeded (getSubtitles w videoId)) eqn:HB.
    + apply succeeded_true in HB. destruct HB as (item & rest & HB).
      rewrite (getTranscript_second item rest HA HB) in H.
      injection H as Ht Hc. eauto.
    + destruct (getTranscript_exhausted HA HB) as [errors He].
      rewrite He in H. discriminate H.
Qed.

(** An error thrown by [getTranscript] was built from a classification. *)
Lemma getTranscript_throw_inv e calls :
  getTranscript w videoId = (Throw e, calls) ->
  exists errors, e = Error (classify errors).
Proof.
  intros H.
  destruct (succeeded (YoutubeTranscript_fetchTranscript w videoId)) eqn:HA.
  - apply succeeded_true in HA. destruct HA as (item & rest & HA).
    rewrite (getTranscript_first w videoId item rest HA) in H.
    discriminate H.
  - destruct (succeeded (getSubtitles w videoId)) eqn:HB.
    + apply succeeded_true in HB. destruct HB as (item & rest & HB).
      rewrite (getTranscript_second item rest HA HB) in H.
      discriminate H.
    + destruct (getTranscript_exhausted HA HB) as [errors He].
      rewrite He in H. injection H as He' _. eauto.
Qed.
End Fallback.

(** ** The resolver's bookkeeping *)

Section Bookkeeping.
Variable w : World.
Variable videoId : JsValue.

Lemma method1_records errors :
  succeeded (YoutubeTranscript_fetchTranscript w videoId) = false ->
  method1 w videoId errors =
  (Ok (Next (errors ++
             thrownMessage (YoutubeTranscript_fetchTranscript w videoId))),
   [FetchTranscript videoId]).
Proof.
  intros H. apply succeeded_false in H.
  destruct H as [(arr & HA & Hne)|(e & HA)]; rewrite HA; cbn [thrownMessage].
  - rewrite app_nil_r. now apply method1_nothing with arr.
  - now apply method1_throws.
Qed.

Lemma method2_records errors :
  succeeded (getSubtitles w videoId) = false ->
  method2 w videoId errors =
  (Ok (Next (errors ++ thrownMessage (getSubtitles w videoId))),
   [GetSubtitles videoId]).
Proof.
  intros H. apply succeeded_false in H.
  destruct H as [(arr & HB & Hne)|(e & HB)]; rewrite HB; cbn [thrownMessage].
  - rewrite app_nil_r. now apply method2_nothing with arr.
  - now apply method2_throws.
Qed.

Lemma method3_records errors :
  method3 w videoId errors =
  (Ok (Next (errors ++ probeMessage (youtube_captions_list w videoId))),
   [CaptionsList videoId]).
Proof.
  destruct (youtube_captions_list w videoId) as [arr|e] eqn:HC;
    cbn [probeMessage].
  - destruct (nonEmpty arr) eqn:Hne.
    + now apply method3_tracks with arr.
    + rewrite app_nil_r. now apply method3_no_tracks with arr.
  - now apply method3_throws.
Qed.
End Bookkeeping.

(** With nothing from the scraper and nothing from the extractor, all three
    methods run, and [errors] is what each [catch] pushed, in order. *)
Lemma tryMethods_exhausted (w : World) (videoId : JsValue) :
  succeeded (YoutubeTranscript_fetchTranscript w videoId) = false ->
  succeeded (getSubtitles w videoId) = false ->
  tryMethods w videoId =
  (Ok (Next (thrownMessage (YoutubeTranscript_fetchTranscript w videoId) ++
             thrownMessage (getSubtitles w videoId) ++
             probeMessage (youtube_captions_list w videoId))),
   [FetchTranscript videoId; GetSubtitles videoId; CaptionsList videoId]).
Proof.
  intros HA HB. unfold tryMethods.
  rewrite (method1_records w videoId [] HA), bind_ok. cbn [app].
  rewrite (method2_records w videoId _ HB), bind_ok.
  rewrite method3_records. cbn [fst snd app].
  now rewrite <- app_assoc.
Qed.

(** ** The handler *)

Section Handler.
Variable w : World.
Variable req : Request.

Lemma convert_without_videoId :
  truthy (body_videoId req) = false ->
  convert w req = (Ok (failure 400 "Video ID is required"), []).
Proof. intros H. unfold convert. now rewrite H. Qed.

Lemma convert_without_key :
  truthy (body_videoId req) = true ->
  keyPresent (API_KEY w) = false ->
  convert w req =
  (Ok (failure 500 "YouTube API key is not configured"), []).
Proof. intros Hv Hk. unfold convert. now rewrite Hv, Hk. Qed.

Lemma convert_not_found items :
  truthy (body_videoId req) = true ->
  keyPresent (API_KEY w) = true ->
  youtube_videos_list w (body_videoId req) = Ok items ->
  missingOrEmpty items = true ->
  convert w req =
  (Ok (failure 404 "Video not found"), [VideosList (body_videoId req)]).
Proof.
  intros Hv Hk Hl Hm. unfold convert. rewrite Hv, Hk. cbn [negb].
  unfold await. rewrite Hl, bind_ok, Hm. reflexivity.
Qed.

(** Past the three guards, the response is decided by [getTranscript]. *)
Lemma convert_resolves items :
  truthy (body_videoId req) = true ->
  keyPresent (API_KEY w) = true ->
  youtube_videos_list w (body_videoId req) = Ok items ->
  missingOrEmpty items = false ->
  convert w req =
  match getTranscript w (body_videoId req) with
  | (Ok transcript, calls) =>
      (Ok {| status := 200; success := true;
             res_text := Some transcript;
             videoTitle := firstTitle items;
             error := None; details := None |},
       VideosList (body_videoId req) :: calls)
  | (Throw e, calls) =>
      (Ok {| status := statusCode (message e); success := false;
             res_text := None; videoTitle := None;
             error := Some (message e);
             details := Some (response e) |},
       VideosList (body_videoId req) :: calls)
  end.
Proof.
  intros Hv Hk Hl Hm. unfold convert. rewrite Hv, Hk. cbn [negb].
  unfold await. rewrite Hl, bind_ok, Hm.
  destruct (getTranscript w (body_videoId req)) as [[t|e] calls].
  - rewrite bind_ok. cbn. now rewrite app_nil_r.
  - cbn. now rewrite app_nil_r.
Qed.
End Handler.

(** * The claims *)

(** ** The resolver's successes *)

(** C5. When the transcript scraper (method 1) answers with at least one
    segment, [getTranscript] returns the text of these segments, and the
    only outside call made is the one to the scraper: neither the caption
    extractor nor the captions probe is invoked. *)
Theorem getTranscript_short_circuit
    (w : World) (videoId : JsValue) (items : list Segment) :
  YoutubeTranscript_fetchTranscript w videoId = Ok (Some items) ->
  items <> [] ->
  getTranscript w videoId =
  (Ok (join (map text items) " "), [FetchTranscript videoId]).
Proof.
  intros HA Hne. destruct (nonEmpty_cons items Hne) as (item & rest & ->).
  now apply getTranscript_first.
Qed.

Lemma getTranscript_short_circuit_witness :
  getTranscript helloWorld someVideo =
  (Ok "Hello world", [FetchTranscript someVideo]).
Proof.
  apply (getTranscript_short_circuit helloWorld someVideo
           [mkSegment "Hello"; mkSegment "world"]).
  - reflexivity.
  - discriminate.
Defined.

(** C9. The transcript returned for a non-empty segment list, whether it
    comes from method 1 or, method 1 having given nothing, from method 2,
    is the [text] fields in their order with one space between two
    neighbours; the segments "Hello" and "world" give "Hello world". *)
Theorem transcript_joins_text_with_spaces
    (w : World) (videoId : JsValue) (items : list Segment) :
  YoutubeTranscript_fetchTranscript w videoId = Ok (Some items) \/
  (succeeded (YoutubeTranscript_fetchTranscript w videoId) = false /\
   getSubtitles w videoId = Ok (Some items)) ->
  items <> [] ->
  fst (getTranscript w videoId) = Ok (String.concat " " (map text items)) /\
  join (map text [mkSegment "Hello"; mkSegment "world"]) " " = "Hello world".
Proof.
  intros H Hne. split; [|reflexivity].
  rewrite <- join_concat.
  destruct (nonEmpty_cons items Hne) as (item & rest & ->).
  destruct H as [HA|[HA HB]].
  - now rewrite (getTranscript_first w videoId item rest HA).
  - now rewrite (getTranscript_second w videoId item rest HA HB).
Qed.

Lemma transcript_joins_text_with_spaces_witness :
  fst (getTranscript helloWorld someVideo) = Ok "Hello world".
Proof.
  apply (transcript_joins_text_with_spaces helloWorld someVideo
           [mkSegment "Hello"; mkSegment "world"]).
  - left. reflexivity.
  - discriminate.
Defined.

Lemma onlySpaces_concat_blank (l : list string) :
  (forall s, In s l -> s = "") ->
  onlySpaces (String.concat " " l) = true.
Proof.
  induction l as [|x rest IH]; intros Hall; [reflexivity|].
  assert (Hx : x = "") by (apply Hall; now left).
  assert (Hrest : forall s, In s rest -> s = "")
    by (intros s Hs; apply Hall; now right).
  subst x. cbn [String.concat]. destruct rest as [|y rest]; [reflexivity|].
  cbn [append onlySpaces]. now rewrite IH.
Qed.

(** C10. The test before the [return] looks at the number of segments, not
    at their text: when method 1 answers with one or more segments whose
    text is empty, [getTranscript] succeeds, and every character of the
    transcript it returns is a space. *)
Theorem success_with_blank_text
    (w : World) (videoId : JsValue) (items : list Segment) :
  YoutubeTranscript_fetchTranscript w videoId = Ok (Some items) ->
  items <> [] ->
  (forall item, In item items -> text item = "") ->
  exists transcript,
    getTranscript w videoId = (Ok transcript, [FetchTranscript videoId]) /\
    onlySpaces transcript = true.
Proof.
  intros HA Hne Hblank.
  destruct (nonEmpty_cons items Hne) as (item & rest & ->).
  eexists. split.
  - apply (getTranscript_first w videoId item rest HA).
  - rewrite join_concat. apply onlySpaces_concat_blank.
    intros s Hs. apply in_map_iff in Hs. destruct Hs as (seg & <- & Hi).
    now apply Hblank.
Qed.

Lemma success_with_blank_text_witness :
  exists transcript,
    getTranscript blankWorld someVideo =
    (Ok transcript, [FetchTranscript someVideo]) /\
    onlySpaces transcript = true.
Proof.
  apply (success_with_blank_text blankWorld someVideo
           [mkSegment ""; mkSegment ""]).
  - reflexivity.
  - discriminate.
  - intros item [<-|[<-|[]]]; reflexivity.
Defined.

(** ** The resolver's failures *)

(** C1. Method 1 fails, method 2 has no segment, and the probe of method 3
    finds caption tracks. The error then thrown inside method 3 is caught
    by its own [catch]: [getTranscript] throws the classification of the
    message of method 1 alone, which is never the "captions exist but could
    not be accessed" message. *)
Theorem captions_exist_error_is_swallowed
    (w : World) (videoId : JsValue) (e : JsError)
    (subtitles : option (list Segment)) (tracks : option (list CaptionTrack)) :
  YoutubeTranscript_fetchTranscript w videoId = Throw e ->
  getSubtitles w videoId = Ok subtitles ->
  nonEmpty subtitles = false ->
  youtube_captions_list w videoId = Ok tracks ->
  nonEmpty tracks = true ->
  getTranscript w videoId =
  (Throw (Error (classify [message e])),
   [FetchTranscript videoId; GetSubtitles videoId; CaptionsList videoId]) /\
  classify [message e] <> MSG_CAPTIONS_EXIST.
Proof.
  intros HA HB HBne HC HCne. split; [|apply classify_not_captions_exist].
  rewrite <- (classify_ignores_captions_exist [message e]).
  apply (getTranscript_third w videoId e subtitles _ HA HB HBne).
  apply (method3_tracks w videoId [message e] tracks HC HCne).
Qed.

Lemma captions_exist_error_is_swallowed_witness :
  getTranscript restrictedWorld someVideo =
  (Throw (Error MSG_FETCH_FAILED),
   [FetchTranscript someVideo; GetSubtitles someVideo;
    CaptionsList someVideo]) /\
  MSG_FETCH_FAILED <> MSG_CAPTIONS_EXIST.
Proof.
  exact (captions_exist_error_is_swallowed restrictedWorld someVideo
           (Error "Network error") (Some []) (Some [mkTrack "en-track"])
           eq_refl eq_refl eq_refl eq_refl eq_refl).
Defined.

(** C6, as the claim has it, fails: with every source answering an empty
    list ([emptyWorld]) the [errors] array is still empty when the methods
    are exhausted, so an empty answer records no failure. *)
Lemma empty_result_records_no_failure :
  tryMethods emptyWorld someVideo =
  (Ok (Next []),
   [FetchTranscript someVideo; GetSubtitles someVideo;
    CaptionsList someVideo]) /\
  ~ (forall w videoId errors,
        YoutubeTranscript_fetchTranscript w videoId = Ok (Some []) ->
        exists failure,
          method1 w videoId errors =
          (Ok (Next (errors ++ [failure])), [FetchTranscript videoId])).
Proof.
  split; [reflexivity|].
  intros H. destruct (H emptyWorld someVideo [] eq_refl) as [failure Hf].
  discriminate Hf.
Qed.

(** C6, amended. An answer without segments ([null] or an empty list) is
    never returned as a transcript, and nothing is recorded for it. The
    method leaves [errors] as it was and the resolver goes on: after an
    empty answer of the scraper the extractor is asked, and its segments,
    if it has any, are the transcript; after an empty answer of the
    extractor the probe is asked. When the resolver gives up, what it
    classifies are the messages of the other sources alone. A transcript
    that [getTranscript] does return is the text of a non-empty list given
    by the other source. *)
Theorem empty_result_falls_through
    (w : World) (videoId : JsValue) (arr : option (list Segment)) :
  nonEmpty arr = false ->
  (YoutubeTranscript_fetchTranscript w videoId = Ok arr ->
   (forall errors,
       method1 w videoId errors =
       (Ok (Next errors), [FetchTranscript videoId])) /\
   (forall item rest,
       getSubtitles w videoId = Ok (Some (item :: rest)) ->
       getTranscript w videoId =
       (Ok (join (map text (item :: rest)) " "),
        [FetchTranscript videoId; GetSubtitles videoId])) /\
   (succeeded (getSubtitles w videoId) = false ->
    getTranscript w videoId =
    (Throw (Error (classify
                     (thrownMessage (getSubtitles w videoId) ++
                      probeMessage (youtube_captions_list w videoId)))),
     [FetchTranscript videoId; GetSubtitles videoId;
      CaptionsList videoId])) /\
   (forall transcript calls,
       getTranscript w videoId = (Ok transcript, calls) ->
       exists item rest,
         getSubtitles w videoId = Ok (Some (item :: rest)) /\
         transcript = join (map text (item :: rest)) " " /\
         calls = [FetchTranscript videoId; GetSubtitles videoId])) /\
  (getSubtitles w videoId = Ok arr ->
   (forall errors,
       method2 w videoId errors =
       (Ok (Next errors), [GetSubtitles videoId])) /\
   (succeeded (YoutubeTranscript_fetchTranscript w videoId) = false ->
    getTranscript w videoId =
    (Throw (Error (classify
                     (thrownMessage
                        (YoutubeTranscript_fetchTranscript w videoId) ++
                      probeMessage (youtube_captions_list w videoId)))),
     [FetchTranscript videoId; GetSubtitles videoId;
      CaptionsList videoId])) /\
   (forall transcript calls,
       getTranscript w videoId = (Ok transcript, calls) ->
       exists item rest,
         YoutubeTranscript_fetchTranscript w videoId =
         Ok (Some (item :: rest)) /\
         transcript = join (map text (item :: rest)) " " /\
         calls = [FetchTranscript videoId])).
Proof.
  intros Hne. split; intros Harr.
  - assert (HA : succeeded (YoutubeTranscript_fetchTranscript w videoId)
                 = false) by (rewrite Harr; exact Hne).
    repeat split.
    + intros errors. now apply method1_nothing with arr.
    + intros item rest HB. now apply getTranscript_second.
    + intros HB. unfold getTranscript.
      rewrite (tryMethods_exhausted w videoId HA HB), Harr. reflexivity.
    + intros transcript calls H.
      apply getTranscript_success_inv in H.
      destruct H as [(item & rest & HA' & _)|[_ H]]; [|exact H].
      rewrite Harr in HA'. injection HA' as ->. discriminate Hne.
  - assert (HB : succeeded (getSubtitles w videoId) = false)
      by (rewrite Harr; exact Hne).
    repeat split.
    + intros errors. now apply method2_nothing with arr.
    + intros HA. unfold getTranscript.
      rewrite (tryMethods_exhausted w videoId HA HB), Harr. reflexivity.
    + intros transcript calls H.
      apply getTranscript_success_inv in H.
      destruct H as [H|[_ (item & rest & HB' & _)]]; [exact H|].
      rewrite Harr in HB'. injection HB' as ->. discriminate Hne.
Qed.

Lemma empty_result_falls_through_witness :
  method1 emptyWorld someVideo [] =
  (Ok (Next []), [FetchTranscript someVideo]) /\
  method2 emptyWorld someVideo [] =
  (Ok (Next []), [GetSubtitles someVideo]) /\
  getTranscript emptyWorld someVideo =
  (Throw (Error MSG_FETCH_FAILED),
   [FetchTranscript someVideo; GetSubtitles someVideo;
    CaptionsList someVideo]).
Proof.
  destruct (empty_result_falls_through emptyWorld someVideo (Some []) eq_refl)
    as [H1 H2].
  destruct (H1 eq_refl) as (Hm1 & _ & Hgo & _).
  destruct (H2 eq_refl) as (Hm2 & _ & _).
  split; [apply Hm1|]. split; [apply Hm2|].
  apply (Hgo eq_refl).
Defined.

(** ** The classifier *)

(** C2, as the claim has it, fails: [mixedErrors] holds a "disabled" and an
    "unavailable" message, and is classified as "no captions". *)
Lemma unavailable_does_not_take_precedence :
  existsb saysUnavailable mixedErrors = true /\
  existsb saysNoCaptions mixedErrors = true /\
  classify mixedErrors = MSG_NO_CAPTIONS /\
  ~ (forall errors,
        existsb saysUnavailable errors = true ->
        existsb saysNoCaptions errors = true ->
        classify errors = MSG_UNAVAILABLE).
Proof.
  repeat split; try reflexivity.
  intros H. specialize (H mixedErrors eq_refl eq_refl). discriminate H.
Qed.

(** C2, amended. When some message has an "unavailable" or "private"
    signal and some message has a "no captions" signal, the classification
    is "no captions": the first test of the [if] wins. *)
Theorem no_captions_takes_precedence (errors : list string) :
  existsb saysUnavailable errors = true ->
  existsb saysNoCaptions errors = true ->
  classify errors = MSG_NO_CAPTIONS.
Proof. intros _ H. now apply classify_no_captions_iff. Qed.

Lemma no_captions_takes_precedence_witness :
  classify mixedErrors = MSG_NO_CAPTIONS.
Proof.
  apply (no_captions_takes_precedence mixedErrors); reflexivity.
Defined.

Lemma saysNoCaptions_iff (e : string) :
  saysNoCaptions e = true <-> mentionsNoCaptions e.
Proof.
  unfold saysNoCaptions, mentionsNoCaptions.
  now rewrite !orb_true_iff, !includes_iff, or_assoc.
Qed.

Lemma saysUnavailable_iff (e : string) :
  saysUnavailable e = true <-> mentionsUnavailable e.
Proof.
  unfold saysUnavailable, mentionsUnavailable.
  now rewrite orb_true_iff, !includes_iff.
Qed.

Lemma some_saysNoCaptions_iff (errors : list string) :
  existsb saysNoCaptions errors = true <->
  exists e, In e errors /\ mentionsNoCaptions e.
Proof.
  rewrite existsb_exists.
  split; intros (e & Hin & He); exists e; split; auto;
    now apply saysNoCaptions_iff.
Qed.

Lemma some_saysUnavailable_iff (errors : list string) :
  existsb saysUnavailable errors = true <->
  exists e, In e errors /\ mentionsUnavailable e.
Proof.
  rewrite existsb_exists.
  split; intros (e & Hin & He); exists e; split; auto;
    now apply saysUnavailable_iff.
Qed.

(** C3, as the claim has it, fails: "TRANSCRIPT IS DISABLED" is classified
    as the generic failure, "Transcript is disabled" as "no captions",
    though the two differ in letter case only. *)
Lemma classifier_is_case_sensitive :
  sameIgnoringCase "TRANSCRIPT IS DISABLED" "Transcript is disabled" /\
  classify ["TRANSCRIPT IS DISABLED"] = MSG_FETCH_FAILED /\
  classify ["Transcript is disabled"] = MSG_NO_CAPTIONS /\
  ~ (forall errors errors',
        Forall2 sameIgnoringCase errors errors' ->
        classify errors = classify errors').
Proof.
  repeat split; try reflexivity.
  intros H.
  assert (Hc : classify ["TRANSCRIPT IS DISABLED"] =
               classify ["Transcript is disabled"]).
  { apply H. constructor; [reflexivity|constructor]. }
  discriminate Hc.
Qed.

(** C3, amended. The phrases are looked for as they are written, letter
    case included. The classification is "no captions" exactly when some
    message contains one of the three caption phrases; it is "unavailable"
    exactly when none does and some message contains "private" or
    "unavailable"; it is the generic failure exactly when no message
    contains any of the five. *)
Theorem classify_by_exact_occurrence (errors : list string) :
  (classify errors = MSG_NO_CAPTIONS <->
   exists e, In e errors /\ mentionsNoCaptions e) /\
  (classify errors = MSG_UNAVAILABLE <->
   ~ (exists e, In e errors /\ mentionsNoCaptions e) /\
   exists e, In e errors /\ mentionsUnavailable e) /\
  (classify errors = MSG_FETCH_FAILED <->
   ~ (exists e, In e errors /\ mentionsNoCaptions e) /\
   ~ (exists e, In e errors /\ mentionsUnavailable e)).
Proof.
  rewrite classify_no_captions_iff, classify_unavailable_iff,
    classify_fetch_failed_iff.
  rewrite <- some_saysNoCaptions_iff, <- some_saysUnavailable_iff.
  destruct (existsb saysNoCaptions errors),
    (existsb saysUnavailable errors); intuition congruence.
Qed.

(** ** The handler's responses *)

(** C7. A request whose [videoId] is absent, empty or otherwise falsy is
    answered with status 400 and [success: false], and no call leaves the
    process: neither the metadata lookup nor any caption source runs. *)
Theorem convert_missing_videoId (w : World) (req : Request) :
  truthy (body_videoId req) = false ->
  exists res,
    convert w req = (Ok res, []) /\
    status res = 400%Z /\
    success res = false /\
    error res = Some "Video ID is required".
Proof.
  intros H. eexists. split; [now apply convert_without_videoId|].
  repeat split.
Qed.

Lemma convert_missing_videoId_witness :
  exists res,
    convert helloWorld {| body_videoId := JsUndefined |} = (Ok res, []) /\
    status res = 400%Z /\
    success res = false /\
    error res = Some "Video ID is required".
Proof.
  apply (convert_missing_videoId helloWorld {| body_videoId := JsUndefined |}).
  reflexivity.
Defined.

(** C8. When the handler reaches the resolver and the resolver is
    exhausted, the [error] field of the response is the message thrown by
    [getTranscript], which is one of the three classified messages; the
    messages of the sources reach the response through the classification
    only, and [details] is [null]. *)
Theorem convert_error_is_classified
    (w : World) (req : Request) (items : option (list VideoItem))
    (e : JsError) (calls : list Call) :
  truthy (body_videoId req) = true ->
  keyPresent (API_KEY w) = true ->
  youtube_videos_list w (body_videoId req) = Ok items ->
  missingOrEmpty items = false ->
  getTranscript w (body_videoId req) = (Throw e, calls) ->
  exists res,
    convert w req = (Ok res, VideosList (body_videoId req) :: calls) /\
    success res = false /\
    error res = Some (message e) /\
    details res = Some None /\
    (exists errors, message e = classify errors) /\
    In (message e) [MSG_NO_CAPTIONS; MSG_UNAVAILABLE; MSG_FETCH_FAILED].
Proof.
  intros Hv Hk Hl Hm Ht.
  destruct (getTranscript_throw_inv w (body_videoId req) e calls Ht)
    as [errors ->].
  eexists. split.
  - rewrite (convert_resolves w req items Hv Hk Hl Hm), Ht. reflexivity.
  - cbn [success error details message response Error].
    repeat split; eauto using classify_fixed.
Qed.

Lemma convert_error_is_classified_witness :
  exists res,
    convert restrictedWorld someRequest =
    (Ok res,
     [VideosList someVideo; FetchTranscript someVideo;
      GetSubtitles someVideo; CaptionsList someVideo]) /\
    success res = false /\
    error res = Some MSG_FETCH_FAILED /\
    details res = Some None /\
    (exists errors, MSG_FETCH_FAILED = classify errors) /\
    In MSG_FETCH_FAILED [MSG_NO_CAPTIONS; MSG_UNAVAILABLE; MSG_FETCH_FAILED].
Proof.
  exact (convert_error_is_classified restrictedWorld someRequest
           (Some [mkVideoItem "A video"]) (Error MSG_FETCH_FAILED)
           [FetchTranscript someVideo; GetSubtitles someVideo;
            CaptionsList someVideo]
           eq_refl eq_refl eq_refl eq_refl eq_refl).
Defined.

(** C4. The status of the "no captions" outcome: the [catch] block looks
    for "not have automatic captions", which the message thrown by
    [getTranscript] ("... does not have available captions ...") does not
    contain, nor does it contain "Video not found" or "unavailable". The
    response carries that message with status 500. *)
Theorem convert_no_captions_status
    (w : World) (req : Request) (items : option (list VideoItem))
    (calls : list Call) :
  truthy (body_videoId req) = true ->
  keyPresent (API_KEY w) = true ->
  youtube_videos_list w (body_videoId req) = Ok items ->
  missingOrEmpty items = false ->
  getTranscript w (body_videoId req) = (Throw (Error MSG_NO_CAPTIONS), calls) ->
  exists res,
    convert w req = (Ok res, VideosList (body_videoId req) :: calls) /\
    status res = 500%Z /\
    success res = false /\
    error res = Some MSG_NO_CAPTIONS.
Proof.
  intros Hv Hk Hl Hm Ht. eexists. split.
  - rewrite (convert_resolves w req items Hv Hk Hl Hm), Ht. reflexivity.
  - repeat split.
Qed.

Lemma convert_no_captions_status_witness :
  exists res,
    convert disabledWorld someRequest =
    (Ok res,
     [VideosList someVideo; FetchTranscript someVideo;
      GetSubtitles someVideo; CaptionsList someVideo]) /\
    status res = 500%Z /\
    success res = false /\
    error res = Some MSG_NO_CAPTIONS.
Proof.
  exact (convert_no_captions_status disabledWorld someRequest
           (Some [mkVideoItem "A video"])
           [FetchTranscript someVideo; GetSubtitles someVideo;
            CaptionsList someVideo]
           eq_refl eq_refl eq_refl eq_refl eq_refl).
Defined.

(** The other rows of the status table: a video that the metadata lookup
    does not find gives 404, the "unavailable" outcome gives 404, the
    generic outcome gives 500. *)
Lemma convert_other_statuses :
  statusCode MSG_UNAVAILABLE = 404%Z /\
  statusCode MSG_FETCH_FAILED = 500%Z /\
  status (failure 404 "Video not found") = 404%Z.
Proof. repeat split. Qed.

(** * Further properties of the three-way revision *)

(** ** The handler's guards *)

Lemma statusCode_range (msg : string) :
  statusCode msg = 400%Z \/ statusCode msg = 404%Z \/ statusCode msg = 500%Z.
Proof.
  unfold statusCode.
  destruct (includes msg "not have automatic captions"); [now left|].
  destruct (includes msg "Video not found" || includes msg "unavailable");
    auto.
Qed.

Lemma convert_lookup_throws (w : World) (req : Request) (e : JsError) :
  truthy (body_videoId req) = true ->
  keyPresent (API_KEY w) = true ->
  youtube_videos_list w (body_videoId req) = Throw e ->
  convert w req =
  (Ok {| status := statusCode (message e); success := false;
         res_text := None; videoTitle := None;
         error := Some (message e);
         details := Some (response e) |},
   [VideosList (body_videoId req)]).
Proof.
  intros Hv Hk Hl. unfold convert. rewrite Hv, Hk. cbn [negb].
  unfold await. rewrite Hl. reflexivity.
Qed.

(** X1. Without a configured API key no request leaves the process: every
    request is answered with status 400 (no [videoId]) or 500, with
    [success: false], and the list of outside calls is empty. *)
Theorem convert_without_key_is_offline (w : World) (req : Request) :
  keyPresent (API_KEY w) = false ->
  exists res,
    convert w req = (Ok res, []) /\
    success res = false /\
    (status res = 400%Z /\ truthy (body_videoId req) = false \/
     status res = 500%Z /\ truthy (body_videoId req) = true /\
     error res = Some "YouTube API key is not configured").
Proof.
  intros Hk. destruct (truthy (body_videoId req)) eqn:Hv; eexists; split.
  - now apply convert_without_key.
  - split; [reflexivity|]. right. repeat split.
  - now apply convert_without_videoId.
  - split; [reflexivity|]. left. repeat split.
Qed.

Lemma convert_without_key_is_offline_witness :
  exists res,
    convert (mkWorld None (fun _ => Ok None) (fun _ => Ok None)
               (fun _ => Ok None) (fun _ => Ok None)) someRequest =
    (Ok res, []) /\
    success res = false /\
    (status res = 400%Z /\ truthy (body_videoId someRequest) = false \/
     status res = 500%Z /\ truthy (body_videoId someRequest) = true /\
     error res = Some "YouTube API key is not configured").
Proof.
  apply (convert_without_key_is_offline
           (mkWorld None (fun _ => Ok None) (fun _ => Ok None)
              (fun _ => Ok None) (fun _ => Ok None)) someRequest).
  reflexivity.
Defined.

(** X2. When the metadata lookup answers without any item, the response is
    404 "Video not found" and the lookup is the only outside call: no
    caption source is asked. *)
Theorem convert_video_not_found
    (w : World) (req : Request) (items : option (list VideoItem)) :
  truthy (body_videoId req) = true ->
  keyPresent (API_KEY w) = true ->
  youtube_videos_list w (body_videoId req) = Ok items ->
  missingOrEmpty items = true ->
  exists res,
    convert w req = (Ok res, [VideosList (body_videoId req)]) /\
    status res = 404%Z /\
    success res = false /\
    error res = Some "Video not found" /\
    details res = None.
Proof.
  intros Hv Hk Hl Hm. eexists. split.
  - now apply convert_not_found with items.
  - repeat split.
Qed.

Lemma convert_video_not_found_witness :
  exists res,
    convert (mkWorld (Some "k") (fun _ => Ok (Some []))
               (fun _ => Ok None) (fun _ => Ok None) (fun _ => Ok None))
            someRequest =
    (Ok res, [VideosList someVideo]) /\
    status res = 404%Z /\
    success res = false /\
    error res = Some "Video not found" /\
    details res = None.
Proof.
  apply (convert_video_not_found
           (mkWorld (Some "k") (fun _ => Ok (Some []))
              (fun _ => Ok None) (fun _ => Ok None) (fun _ => Ok None))
           someRequest (Some [])); reflexivity.
Defined.

(** X3. When the metadata lookup itself throws, its own message is what
    the caller gets in [error], its [response.data] goes to [details], the
    status is chosen from that message, and no caption source is asked. *)
Theorem convert_lookup_failure_is_surfaced
    (w : World) (req : Request) (e : JsError) :
  truthy (body_videoId req) = true ->
  keyPresent (API_KEY w) = true ->
  youtube_videos_list w (body_videoId req) = Throw e ->
  exists res,
    convert w req = (Ok res, [VideosList (body_videoId req)]) /\
    success res = false /\
    error res = Some (message e) /\
    details res = Some (response e) /\
    status res = statusCode (message e).
Proof.
  intros Hv Hk Hl. eexists. split.
  - apply (convert_lookup_throws w req e Hv Hk Hl).
  - repeat split.
Qed.

Lemma convert_lookup_failure_is_surfaced_witness :
  exists res,
    convert (mkWorld (Some "k")
               (fun _ => Throw (mkError "quotaExceeded" (Some "{...}")))
               (fun _ => Ok None) (fun _ => Ok None) (fun _ => Ok None))
            someRequest =
    (Ok res, [VideosList someVideo]) /\
    success res = false /\
    error res = Some "quotaExceeded" /\
    details res = Some (Some "{...}") /\
    status res = 500%Z.
Proof.
  apply (convert_lookup_failure_is_surfaced
           (mkWorld (Some "k")
              (fun _ => Throw (mkError "quotaExceeded" (Some "{...}")))
              (fun _ => Ok None) (fun _ => Ok None) (fun _ => Ok None))
           someRequest (mkError "quotaExceeded" (Some "{...}")));
    reflexivity.
Defined.

(** X4. The handler always answers: whatever the request and whatever the
    outside does, [convert] ends with a response and never with an error.
    The status is 200, 400, 404 or 500; it is 200 exactly when [success] is
    true, and then there is a text and no error; otherwise there is an
    error message and no text. *)
Theorem convert_always_responds (w : World) (req : Request) :
  exists res calls,
    convert w req = (Ok res, calls) /\
    In (status res) [200%Z; 400%Z; 404%Z; 500%Z] /\
    (success res = true <-> status res = 200%Z) /\
    (success res = true -> res_text res <> None /\ error res = None) /\
    (success res = false -> res_text res = None /\ error res <> None).
Proof.
  assert (Hfail : forall msg d,
    let res := {| status := statusCode msg; success := false;
                  res_text := None; videoTitle := None;
                  error := Some msg; details := d |} in
    In (status res) [200%Z; 400%Z; 404%Z; 500%Z] /\
    (success res = true <-> status res = 200%Z) /\
    (success res = true -> res_text res <> None /\ error res = None) /\
    (success res = false -> res_text res = None /\ error res <> None)).
  { intros msg d. cbn.
    destruct (statusCode_range msg) as [H|[H|H]]; rewrite H;
      repeat split; auto; try discriminate; intros; discriminate. }
  destruct (truthy (body_videoId req)) eqn:Hv.
  2:{ do 2 eexists. split; [now apply convert_without_videoId|].
      cbn. repeat split; auto; try discriminate; intros; discriminate. }
  destruct (keyPresent (API_KEY w)) eqn:Hk.
  2:{ do 2 eexists. split; [now apply convert_without_key|].
      cbn. repeat split; auto; try discriminate; intros; discriminate. }
  destruct (youtube_videos_list w (body_videoId req)) as [items|e] eqn:Hl.
  2:{ do 2 eexists. split; [apply (convert_lookup_throws w req e Hv Hk Hl)|].
      apply Hfail. }
  destruct (missingOrEmpty items) eqn:Hm.
  { do 2 eexists. split; [now apply convert_not_found with items|].
    cbn. repeat split; auto; try discriminate; intros; discriminate. }
  rewrite (convert_resolves w req items Hv Hk Hl Hm).
  destruct (getTranscript w (body_videoId req)) as [[t|e] calls].
  - do 2 eexists. split; [reflexivity|].
    cbn. repeat split; auto; try discriminate; intros; discriminate.
  - do 2 eexists. split; [reflexivity|]. apply Hfail.
Qed.

(** X5. A success response is never built from nothing: when [convert]
    answers with [success: true], the request had a [videoId], the key was
    configured, the lookup found an item whose title is the [videoTitle],
    and [text] is the joined text of a non-empty segment list given by the
    scraper or by the extractor. *)
Theorem convert_success_inv
    (w : World) (req : Request) (res : Response) (calls : list Call) :
  convert w req = (Ok res, calls) ->
  success res = true ->
  truthy (body_videoId req) = true /\
  keyPresent (API_KEY w) = true /\
  (exists video others,
      youtube_videos_list w (body_videoId req) = Ok (Some (video :: others)) /\
      videoTitle res = Some (snippet_title video)) /\
  (exists item rest,
      (YoutubeTranscript_fetchTranscript w (body_videoId req) =
       Ok (Some (item :: rest)) \/
       getSubtitles w (body_videoId req) = Ok (Some (item :: rest))) /\
      res_text res = Some (join (map text (item :: rest)) " ")).
Proof.
  intros Hc Hs.
  destruct (truthy (body_videoId req)) eqn:Hv.
  2:{ rewrite (convert_without_videoId w req Hv) in Hc.
      injection Hc as <- _. discriminate Hs. }
  destruct (keyPresent (API_KEY w)) eqn:Hk.
  2:{ rewrite (convert_without_key w req Hv Hk) in Hc.
      injection Hc as <- _. discriminate Hs. }
  destruct (youtube_videos_list w (body_videoId req)) as [items|e] eqn:Hl.
  2:{ rewrite (convert_lookup_throws w req e Hv Hk Hl) in Hc.
      injection Hc as <- _. discriminate Hs. }
  destruct (missingOrEmpty items) eqn:Hm.
  { rewrite (convert_not_found w req items Hv Hk Hl Hm) in Hc.
    injection Hc as <- _. discriminate Hs. }
  rewrite (convert_resolves w req items Hv Hk Hl Hm) in Hc.
  destruct (getTranscript w (body_videoId req)) as [[t|e] tcalls] eqn:Ht.
  2:{ injection Hc as <- _. discriminate Hs. }
  injection Hc as <- _. cbn [videoTitle res_text].
  repeat split.
  - destruct items as [[|video others]|]; try discriminate Hm.
    exists video, others. now split.
  - apply getTranscript_success_inv in Ht.
    destruct Ht as [(item & rest & HA & -> & _)|[_ (item & rest & HB & -> & _)]];
      exists item, rest; auto.
Qed.

Lemma convert_success_inv_witness :
  truthy (body_videoId someRequest) = true /\
  keyPresent (API_KEY helloWorld) = true /\
  (exists video others,
      youtube_videos_list helloWorld (body_videoId someRequest) =
      Ok (Some (video :: others)) /\
      Some "A video" = Some (snippet_title video)) /\
  (exists item rest,
      (YoutubeTranscript_fetchTranscript helloWorld (body_videoId someRequest) =
       Ok (Some (item :: rest)) \/
       getSubtitles helloWorld (body_videoId someRequest) =
       Ok (Some (item :: rest))) /\
      Some "Hello world" = Some (join (map text (item :: rest)) " ")).
Proof.
  exact (convert_success_inv helloWorld someRequest
           {| status := 200; success := true;
              res_text := Some "Hello world";
              videoTitle := Some "A video";
              error := None; details := None |}
           [VideosList someVideo; FetchTranscript someVideo]
           eq_refl eq_refl).
Defined.

(** X6. What is classified when no source gives a transcript: the [errors]
    array then holds, in this order, the message thrown by the scraper (if
    it threw), the message thrown by the extractor (if it threw), and for
    the probe either the message it threw or, when it found tracks, the
    "captions exist" message. An answer without segments adds nothing.
    [getTranscript] throws the classification of exactly that array, after
    one call to each source. *)
Theorem getTranscript_exhausted_messages (w : World) (videoId : JsValue) :
  succeeded (YoutubeTranscript_fetchTranscript w videoId) = false ->
  succeeded (getSubtitles w videoId) = false ->
  let errors :=
    thrownMessage (YoutubeTranscript_fetchTranscript w videoId) ++
    thrownMessage (getSubtitles w videoId) ++
    probeMessage (youtube_captions_list w videoId) in
  tryMethods w videoId =
  (Ok (Next errors),
   [FetchTranscript videoId; GetSubtitles videoId; CaptionsList videoId]) /\
  getTranscript w videoId =
  (Throw (Error (classify errors)),
   [FetchTranscript videoId; GetSubtitles videoId; CaptionsList videoId]).
Proof.
  intros HA HB errors.
  assert (Ht : tryMethods w videoId =
    (Ok (Next errors),
     [FetchTranscript videoId; GetSubtitles videoId; CaptionsList videoId])).
  { unfold tryMethods.
    rewrite (method1_records w videoId [] HA), bind_ok. cbn [app].
    rewrite (method2_records w videoId _ HB), bind_ok.
    rewrite method3_records. cbn [fst snd app].
    subst errors. now rewrite <- app_assoc. }
  split; [exact Ht|].
  unfold getTranscript. rewrite Ht. reflexivity.
Qed.

Lemma getTranscript_exhausted_messages_witness :
  tryMethods restrictedWorld someVideo =
  (Ok (Next ["Network error"; MSG_CAPTIONS_EXIST]),
   [FetchTranscript someVideo; GetSubtitles someVideo;
    CaptionsList someVideo]) /\
  getTranscript restrictedWorld someVideo =
  (Throw (Error MSG_FETCH_FAILED),
   [FetchTranscript someVideo; GetSubtitles someVideo;
    CaptionsList someVideo]).
Proof.
  exact (getTranscript_exhausted_messages restrictedWorld someVideo
           eq_refl eq_refl).
Defined.

(** X7. The sources are asked one after the other, each at most once, and
    the resolver gives up only after the third: [getTranscript] either
    returns a transcript after the scraper alone or after the scraper and
    the extractor, or throws one of its three messages after all three
    calls. *)
Theorem getTranscript_outcomes (w : World) (videoId : JsValue) :
  (exists t,
      getTranscript w videoId = (Ok t, [FetchTranscript videoId])) \/
  (exists t,
      getTranscript w videoId =
      (Ok t, [FetchTranscript videoId; GetSubtitles videoId])) \/
  (exists msg,
      getTranscript w videoId =
      (Throw (Error msg),
       [FetchTranscript videoId; GetSubtitles videoId;
        CaptionsList videoId]) /\
      In msg [MSG_NO_CAPTIONS; MSG_UNAVAILABLE; MSG_FETCH_FAILED]).
Proof.
  destruct (succeeded (YoutubeTranscript_fetchTranscript w videoId)) eqn:HA.
  - left. apply succeeded_true in HA. destruct HA as (item & rest & HA).
    eexists. apply (getTranscript_first w videoId item rest HA).
  - right. destruct (succeeded (getSubtitles w videoId)) eqn:HB.
    + left. apply succeeded_true in HB. destruct HB as (item & rest & HB).
      eexists. apply (getTranscript_second w videoId item rest HA HB).
    + right. destruct (getTranscript_exhausted w videoId HA HB) as [errors He].
      exists (classify errors). split; [exact He|apply classify_fixed].
Qed.

(** X8. The second source short-circuits too: when the scraper throws or
    has no segment and the extractor answers with at least one, the
    transcript is the extractor's text and the captions probe is never
    called. *)
Theorem getTranscript_second_source
    (w : World) (videoId : JsValue) (subtitles : list Segment) :
  succeeded (YoutubeTranscript_fetchTranscript w videoId) = false ->
  getSubtitles w videoId = Ok (Some subtitles) ->
  subtitles <> [] ->
  getTranscript w videoId =
  (Ok (join (map text subtitles) " "),
   [FetchTranscript videoId; GetSubtitles videoId]).
Proof.
  intros HA HB Hne. destruct (nonEmpty_cons subtitles Hne) as (item & rest & ->).
  now apply getTranscript_second.
Qed.

Lemma getTranscript_second_source_witness :
  getTranscript
    (mockWorld (Throw (Error "Transcript is disabled on this video"))
               (Ok (Some [mkSegment "Hello"; mkSegment "world"]))
               (Ok None))
    someVideo =
  (Ok "Hello world", [FetchTranscript someVideo; GetSubtitles someVideo]).
Proof.
  apply (getTranscript_second_source
           (mockWorld (Throw (Error "Transcript is disabled on this video"))
                      (Ok (Some [mkSegment "Hello"; mkSegment "world"]))
                      (Ok None))
           someVideo [mkSegment "Hello"; mkSegment "world"]).
  - reflexivity.
  - reflexivity.
  - discriminate.
Defined.

Lemma existsb_same_elements {A} (f : A -> bool) (l l' : list A) :
  (forall x, In x l <-> In x l') -> existsb f l = existsb f l'.
Proof.
  intros H.
  destruct (existsb f l) eqn:E; destruct (existsb f l') eqn:E';
    try reflexivity.
  - apply existsb_exists in E. destruct E as (x & Hin & Hx).
    assert (E2 : existsb f l' = true)
      by (apply existsb_exists; exists x; split; [now apply H|exact Hx]).
    congruence.
  - apply existsb_exists in E'. destruct E' as (x & Hin & Hx).
    assert (E2 : existsb f l = true)
      by (apply existsb_exists; exists x; split; [now apply H|exact Hx]).
    congruence.
Qed.

(** X9. The classification looks at which messages were recorded, not at
    their order or number: two [errors] arrays with the same elements are
    classified alike. *)
Theorem classify_same_elements (errors errors' : list string) :
  (forall e, In e errors <-> In e errors') ->
  classify errors = classify errors'.
Proof.
  intros H. unfold classify.
  now rewrite (existsb_same_elements saysNoCaptions errors errors' H),
    (existsb_same_elements saysUnavailable errors errors' H).
Qed.

Lemma classify_same_elements_witness :
  classify ["Video unavailable"; "Network error"] =
  classify ["Network error"; "Video unavailable"; "Network error"].
Proof.
  apply (classify_same_elements ["Video unavailable"; "Network error"]
           ["Network error"; "Video unavailable"; "Network error"]).
  intros e. simpl. tauto.
Defined.

(** X10. Once the handler has reached the resolver and the resolver has
    given up, the status is 404 when the classification is "private or
    unavailable" and 500 for the two other messages: it is never 400. *)
Theorem convert_exhausted_status
    (w : World) (req : Request) (items : option (list VideoItem))
    (e : JsError) (calls : list Call) :
  truthy (body_videoId req) = true ->
  keyPresent (API_KEY w) = true ->
  youtube_videos_list w (body_videoId req) = Ok items ->
  missingOrEmpty items = false ->
  getTranscript w (body_videoId req) = (Throw e, calls) ->
  exists res,
    convert w req = (Ok res, VideosList (body_videoId req) :: calls) /\
    (message e = MSG_UNAVAILABLE /\ status res = 404%Z \/
     message e <> MSG_UNAVAILABLE /\ status res = 500%Z).
Proof.
  intros Hv Hk Hl Hm Ht.
  destruct (getTranscript_throw_inv w (body_videoId req) e calls Ht)
    as [errors ->].
  eexists. split.
  - rewrite (convert_resolves w req items Hv Hk Hl Hm), Ht. reflexivity.
  - cbn [status message Error].
    destruct (classify_fixed errors) as [H|[H|[H|[]]]]; rewrite <- H.
    + right. split; [discriminate|reflexivity].
    + left. split; reflexivity.
    + right. split; [discriminate|reflexivity].
Qed.

Lemma convert_exhausted_status_witness :
  exists res,
    convert
      (mockWorld (Throw (Error "This video is private")) (Ok None) (Ok None))
      someRequest =
    (Ok res,
     [VideosList someVideo; FetchTranscript someVideo;
      GetSubtitles someVideo; CaptionsList someVideo]) /\
    (MSG_UNAVAILABLE = MSG_UNAVAILABLE /\ status res = 404%Z \/
     MSG_UNAVAILABLE <> MSG_UNAVAILABLE /\ status res = 500%Z).
Proof.
  exact (convert_exhausted_status
           (mockWorld (Throw (Error "This video is private"))
                      (Ok None) (Ok None))
           someRequest (Some [mkVideoItem "A video"]) (Error MSG_UNAVAILABLE)
           [FetchTranscript someVideo; GetSubtitles someVideo;
            CaptionsList someVideo]
           eq_refl eq_refl eq_refl eq_refl eq_refl).
Defined.

(** * The second revision *)

Section SecondRevision.
Variable w : World.
Variable videoId : JsValue.

Lemma checkCaptions_passes :
  Rev2.probePasses w videoId = true ->
  Rev2.checkCaptions w videoId = (Ok tt, [CaptionsList videoId]).
Proof.
  unfold Rev2.probePasses, Rev2.checkCaptions. unfold_M.
  destruct (youtube_captions_list w videoId) as [arr|e]; [reflexivity|].
  intros ->. reflexivity.
Qed.

Lemma checkCaptions_aborts e :
  youtube_captions_list w videoId = Throw e ->
  includes (message e) "403" = false ->
  Rev2.checkCaptions w videoId = (Throw e, [CaptionsList videoId]).
Proof.
  intros HC H. unfold Rev2.checkCaptions. unfold_M.
  rewrite HC, H. reflexivity.
Qed.

Lemma probePasses_false :
  Rev2.probePasses w videoId = false ->
  exists e, youtube_captions_list w videoId = Throw e /\
            includes (message e) "403" = false.
Proof.
  unfold Rev2.probePasses.
  destruct (youtube_captions_list w videoId) as [arr|e]; [discriminate|].
  eauto.
Qed.

Lemma rev2_aborted e :
  youtube_captions_list w videoId = Throw e ->
  includes (message e) "403" = false ->
  Rev2.getTranscript w videoId =
  (Throw (Rev2.rethrown e), [CaptionsList videoId]).
Proof.
  intros HC H. unfold Rev2.getTranscript.
  rewrite (checkCaptions_aborts e HC H). reflexivity.
Qed.

Lemma rev2_found item rest :
  Rev2.probePasses w videoId = true ->
  YoutubeTranscript_fetchTranscript w videoId = Ok (Some (item :: rest)) ->
  Rev2.getTranscript w videoId =
  (Ok (join (map text (item :: rest)) " "),
   [CaptionsList videoId; FetchTranscript videoId]).
Proof.
  intros HP HA. unfold Rev2.getTranscript.
  rewrite (checkCaptions_passes HP), bind_ok. unfold await.
  rewrite HA. reflexivity.
Qed.

Lemma rev2_nothing arr :
  Rev2.probePasses w videoId = true ->
  YoutubeTranscript_fetchTranscript w videoId = Ok arr ->
  missingOrEmpty arr = true ->
  Rev2.getTranscript w videoId =
  (Throw (Error "Failed to fetch transcript: No transcript items found"),
   [CaptionsList videoId; FetchTranscript videoId]).
Proof.
  intros HP HA Hm. unfold Rev2.getTranscript.
  rewrite (checkCaptions_passes HP), bind_ok. unfold await.
  rewrite HA, bind_ok, Hm. reflexivity.
Qed.

Lemma rev2_scraper_throws e :
  Rev2.probePasses w videoId = true ->
  YoutubeTranscript_fetchTranscript w videoId = Throw e ->
  Rev2.getTranscript w videoId =
  (Throw (Rev2.rethrown e), [CaptionsList videoId; FetchTranscript videoId]).
Proof.
  intros HP HA. unfold Rev2.getTranscript.
  rewrite (checkCaptions_passes HP), bind_ok. unfold await.
  rewrite HA. reflexivity.
Qed.
End SecondRevision.

Lemma missingOrEmpty_false {A} (arr : option (list A)) :
  missingOrEmpty arr = false -> exists item rest, arr = Some (item :: rest).
Proof. destruct arr as [[|item rest]|]; try discriminate; eauto. Qed.

Lemma rethrown_permissions (e : JsError) :
  message (Rev2.rethrown e) = Rev2.MSG_PERMISSIONS ->
  includes (message e) "403" = true.
Proof.
  unfold Rev2.rethrown.
  destruct (includes (message e) "403"); [reflexivity|].
  destruct (includes (message e) "Could not find automatic captions" ||
            includes (message e) "Transcript is disabled");
    [discriminate|].
  destruct (includes (message e) "Video is unavailable"); discriminate.
Qed.

(** X11. Second revision: an error of the captions probe that does not
    mention 403 ends the resolution at once. The scraper is never called,
    and what is thrown is the rewriting of the probe's error. *)
Theorem rev2_probe_failure_aborts
    (w : World) (videoId : JsValue) (e : JsError) :
  youtube_captions_list w videoId = Throw e ->
  includes (message e) "403" = false ->
  Rev2.getTranscript w videoId =
  (Throw (Rev2.rethrown e), [CaptionsList videoId]).
Proof. intros HC H. now apply rev2_aborted. Qed.

Lemma rev2_probe_failure_aborts_witness :
  Rev2.getTranscript
    (mockWorld (Ok (Some [mkSegment "Hello"])) (Ok None)
               (Throw (Error "quotaExceeded")))
    someVideo =
  (Throw (Error "Failed to fetch transcript: quotaExceeded"),
   [CaptionsList someVideo]).
Proof.
  apply (rev2_probe_failure_aborts
           (mockWorld (Ok (Some [mkSegment "Hello"])) (Ok None)
                      (Throw (Error "quotaExceeded")))
           someVideo (Error "quotaExceeded")); reflexivity.
Defined.

(** X12. Second revision: a transcript is returned only when the probe
    answered or failed with a 403, and the scraper gave at least one
    segment; it is the joined text of these segments, after exactly the
    two calls. *)
Theorem rev2_success_inv
    (w : World) (videoId : JsValue) (t : string) (calls : list Call) :
  Rev2.getTranscript w videoId = (Ok t, calls) ->
  Rev2.probePasses w videoId = true /\
  calls = [CaptionsList videoId; FetchTranscript videoId] /\
  exists item rest,
    YoutubeTranscript_fetchTranscript w videoId = Ok (Some (item :: rest)) /\
    t = join (map text (item :: rest)) " ".
Proof.
  intros H.
  destruct (Rev2.probePasses w videoId) eqn:HP.
  2:{ destruct (probePasses_false w videoId HP) as (e & HC & H403).
      rewrite (rev2_aborted w videoId e HC H403) in H. discriminate H. }
  destruct (YoutubeTranscript_fetchTranscript w videoId) as [arr|e] eqn:HA.
  2:{ rewrite (rev2_scraper_throws w videoId e HP HA) in H. discriminate H. }
  destruct (missingOrEmpty arr) eqn:Hm.
  { rewrite (rev2_nothing w videoId arr HP HA Hm) in H. discriminate H. }
  destruct (missingOrEmpty_false arr Hm) as (item & rest & ->).
  rewrite (rev2_found w videoId item rest HP HA) in H.
  injection H as <- <-. repeat split. eauto.
Qed.

Lemma rev2_success_inv_witness :
  Rev2.probePasses helloWorld someVideo = true /\
  [CaptionsList someVideo; FetchTranscript someVideo] =
  [CaptionsList someVideo; FetchTranscript someVideo] /\
  exists item rest,
    YoutubeTranscript_fetchTranscript helloWorld someVideo =
    Ok (Some (item :: rest)) /\
    "Hello world" = join (map text (item :: rest)) " ".
Proof.
  exact (rev2_success_inv helloWorld someVideo "Hello world"
           [CaptionsList someVideo; FetchTranscript someVideo] eq_refl).
Defined.

(** X13. Second revision: the message about the API key's permissions is
    thrown only for an error of the scraper whose message mentions 403. A
    403 of the captions probe, the one call that uses the key, is
    swallowed and never leads to that message. *)
Theorem rev2_permissions_message_origin
    (w : World) (videoId : JsValue) (err : JsError) (calls : list Call) :
  Rev2.getTranscript w videoId = (Throw err, calls) ->
  message err = Rev2.MSG_PERMISSIONS ->
  calls = [CaptionsList videoId; FetchTranscript videoId] /\
  exists e,
    YoutubeTranscript_fetchTranscript w videoId = Throw e /\
    includes (message e) "403" = true.
Proof.
  intros H Hmsg.
  destruct (Rev2.probePasses w videoId) eqn:HP.
  2:{ destruct (probePasses_false w videoId HP) as (e & HC & H403).
      rewrite (rev2_aborted w videoId e HC H403) in H.
      injection H as <- _. apply rethrown_permissions in Hmsg. congruence. }
  destruct (YoutubeTranscript_fetchTranscript w videoId) as [arr|e] eqn:HA.
  - destruct (missingOrEmpty arr) eqn:Hm.
    + rewrite (rev2_nothing w videoId arr HP HA Hm) in H.
      injection H as <- _. discriminate Hmsg.
    + destruct (missingOrEmpty_false arr Hm) as (item & rest & ->).
      rewrite (rev2_found w videoId item rest HP HA) in H. discriminate H.
  - rewrite (rev2_scraper_throws w videoId e HP HA) in H.
    injection H as <- <-. split; [reflexivity|].
    exists e. split; [reflexivity|now apply rethrown_permissions].
Qed.

Lemma rev2_permissions_message_origin_witness :
  [CaptionsList someVideo; FetchTranscript someVideo] =
  [CaptionsList someVideo; FetchTranscript someVideo] /\
  exists e,
    YoutubeTranscript_fetchTranscript
      (mockWorld (Throw (Error "Request failed with status code 403"))
                 (Ok None) (Throw (Error "403 Forbidden")))
      someVideo = Throw e /\
    includes (message e) "403" = true.
Proof.
  exact (rev2_permissions_message_origin
           (mockWorld (Throw (Error "Request failed with status code 403"))
                      (Ok None) (Throw (Error "403 Forbidden")))
           someVideo (Error Rev2.MSG_PERMISSIONS)
           [CaptionsList someVideo; FetchTranscript someVideo]
           eq_refl eq_refl).
Defined.

(** X14. Second revision: a scraper answer without segments ([null] or an
    empty list) is turned into a failure with a message of its own, which
    the outer [catch] wraps as "Failed to fetch transcript: No transcript
    items found". *)
Theorem rev2_empty_is_failure
    (w : World) (videoId : JsValue) (arr : option (list Segment)) :
  Rev2.probePasses w videoId = true ->
  YoutubeTranscript_fetchTranscript w videoId = Ok arr ->
  nonEmpty arr = false ->
  Rev2.getTranscript w videoId =
  (Throw (Error "Failed to fetch transcript: No transcript items found"),
   [CaptionsList videoId; FetchTranscript videoId]).
Proof.
  intros HP HA Hne. apply rev2_nothing with arr; auto.
  destruct arr as [[|x l]|]; [reflexivity|discriminate Hne|reflexivity].
Qed.

Lemma rev2_empty_is_failure_witness :
  Rev2.getTranscript emptyWorld someVideo =
  (Throw (Error "Failed to fetch transcript: No transcript items found"),
   [CaptionsList someVideo; FetchTranscript someVideo]).
Proof.
  apply (rev2_empty_is_failure emptyWorld someVideo (Some []));
    reflexivity.
Defined.

(** X15. Second revision: what is thrown is one of three fixed messages,
    or "Failed to fetch transcript: " followed by a raw message, which is
    "No transcript items found" or the very message of the error thrown by
    the probe or by the scraper. *)
Theorem rev2_thrown_messages
    (w : World) (videoId : JsValue) (err : JsError) (calls : list Call) :
  Rev2.getTranscript w videoId = (Throw err, calls) ->
  In (message err)
     [Rev2.MSG_PERMISSIONS; Rev2.MSG_NO_CAPTIONS; Rev2.MSG_UNAVAILABLE] \/
  exists raw,
    message err = ("Failed to fetch transcript: " ++ raw)%string /\
    (raw = "No transcript items found" \/
     (exists e, youtube_captions_list w videoId = Throw e /\ raw = message e) \/
     (exists e, YoutubeTranscript_fetchTranscript w videoId = Throw e /\
                raw = message e)).
Proof.
  assert (Hre : forall e,
    In (message (Rev2.rethrown e))
       [Rev2.MSG_PERMISSIONS; Rev2.MSG_NO_CAPTIONS; Rev2.MSG_UNAVAILABLE] \/
    message (Rev2.rethrown e) =
    ("Failed to fetch transcript: " ++ message e)%string).
  { intros e. unfold Rev2.rethrown.
    destruct (includes (message e) "403"); [left; now left|].
    destruct (includes (message e) "Could not find automatic captions" ||
              includes (message e) "Transcript is disabled");
      [left; right; now left|].
    destruct (includes (message e) "Video is unavailable");
      [left; right; right; now left|].
    now right. }
  intros H.
  destruct (Rev2.probePasses w videoId) eqn:HP.
  2:{ destruct (probePasses_false w videoId HP) as (e & HC & H403).
      rewrite (rev2_aborted w videoId e HC H403) in H.
      injection H as <- _. destruct (Hre e) as [Hin|Heq]; [now left|].
      right. exists (message e). split; [exact Heq|]. right. left. eauto. }
  destruct (YoutubeTranscript_fetchTranscript w videoId) as [arr|e] eqn:HA.
  - destruct (missingOrEmpty arr) eqn:Hm.
    + rewrite (rev2_nothing w videoId arr HP HA Hm) in H.
      injection H as <- _. right.
      exists "No transcript items found". split; [reflexivity|now left].
    + destruct (missingOrEmpty_false arr Hm) as (item & rest & ->).
      rewrite (rev2_found w videoId item rest HP HA) in H. discriminate H.
  - rewrite (rev2_scraper_throws w videoId e HP HA) in H.
    injection H as <- _. destruct (Hre e) as [Hin|Heq]; [now left|].
    right. exists (message e). split; [exact Heq|]. right. right. eauto.
Qed.

Lemma rev2_thrown_messages_witness :
  In "Failed to fetch transcript: quotaExceeded"
     [Rev2.MSG_PERMISSIONS; Rev2.MSG_NO_CAPTIONS; Rev2.MSG_UNAVAILABLE] \/
  exists raw,
    "Failed to fetch transcript: quotaExceeded" =
    ("Failed to fetch transcript: " ++ raw)%string /\
    (raw = "No transcript items found" \/
     (exists e,
         youtube_captions_list
           (mockWorld (Ok None) (Ok None) (Throw (Error "quotaExceeded")))
           someVideo = Throw e /\ raw = message e) \/
     (exists e,
         YoutubeTranscript_fetchTranscript
           (mockWorld (Ok None) (Ok None) (Throw (Error "quotaExceeded")))
           someVideo = Throw e /\ raw = message e)).
Proof.
  exact (rev2_thrown_messages
           (mockWorld (Ok None) (Ok None) (Throw (Error "quotaExceeded")))
           someVideo (Error "Failed to fetch transcript: quotaExceeded")
           [CaptionsList someVideo] eq_refl).
Defined.

(** * The third revision *)



(** X17. Third revision: there is no test on the number of segments. Any
    list the scraper answers, the empty one included, is returned as a
    transcript: the texts with one space between neighbours, hence the
    empty string for the empty list. *)
Theorem rev3_returns_any_list
    (w : World) (videoId : JsValue) (items : list Segment) :
  YoutubeTranscript_fetchTranscript w videoId = Ok (Some items) ->
  Rev3.getTranscript w videoId =
  (Ok (String.concat " " (map text items)), [FetchTranscript videoId]).
Proof.
  intros H. unfold Rev3.getTranscript. unfold_M. rewrite H.
  cbn. now rewrite join_concat.
Qed.

Lemma rev3_returns_any_list_witness :
  Rev3.getTranscript emptyWorld someVideo =
  (Ok "", [FetchTranscript someVideo]).
Proof.
  apply (rev3_returns_any_list emptyWorld someVideo []). reflexivity.
Defined.

(** X18. Third revision of the handler: there is no guard on [videoId] or
    on the key, so the metadata lookup is called for every request, with
    whatever [videoId] the body has. The handler always answers, with 200
    and [success: true] or with 500, [success: false] and an error
    message; it never answers 400 or 404. *)
Theorem rev3_convert_responds (w : World) (req : Request) :
  exists res rest,
    Rev3.convert w req = (Ok res, VideosList (body_videoId req) :: rest) /\
    (status res = 200%Z /\ success res = true /\ error res = None \/
     status res = 500%Z /\ success res = false /\ error res <> None).
Proof.
  unfold Rev3.convert, await.
  destruct (youtube_videos_list w (body_videoId req)) as [items|e].
  - rewrite bind_ok. destruct (missingOrEmpty items).
    + do 2 eexists. split; [reflexivity|].
      right. repeat split. discriminate.
    + destruct (Rev3.getTranscript w (body_videoId req)) as [[t|e] calls].
      * do 2 eexists. split; [reflexivity|]. left. repeat split.
      * do 2 eexists. split; [reflexivity|].
        right. repeat split. discriminate.
  - do 2 eexists. split; [reflexivity|].
    right. repeat split. discriminate.
Qed.

(** X19. Third revision of the handler: a video the lookup does not find is
    reported as "Video not found" with status 500, after the lookup
    alone. *)
Theorem rev3_convert_not_found
    (w : World) (req : Request) (items : option (list VideoItem)) :
  youtube_videos_list w (body_videoId req) = Ok items ->
  missingOrEmpty items = true ->
  exists res,
    Rev3.convert w req = (Ok res, [VideosList (body_videoId req)]) /\
    status res = 500%Z /\
    success res = false /\
    error res = Some "Video not found" /\
    details res = Some None.
Proof.
  intros Hl Hm. unfold Rev3.convert, await. rewrite Hl, bind_ok, Hm.
  eexists. split; [reflexivity|]. repeat split.
Qed.

Lemma rev3_convert_not_found_witness :
  exists res,
    Rev3.convert
      (mkWorld None (fun _ => Ok None) (fun _ => Ok None)
         (fun _ => Ok None) (fun _ => Ok None))
      {| body_videoId := JsUndefined |} =
    (Ok res, [VideosList JsUndefined]) /\
    status res = 500%Z /\
    success res = false /\
    error res = Some "Video not found" /\
    details res = Some None.
Proof.
  apply (rev3_convert_not_found
           (mkWorld None (fun _ => Ok None) (fun _ => Ok None)
              (fun _ => Ok None) (fun _ => Ok None))
           {| body_videoId := JsUndefined |} None); reflexivity.
Defined.

(** * The AI endpoints *)

(** ** Truncation *)

Lemma string_length_app (a b : string) :
  String.length (a ++ b) = (String.length a + String.length b)%nat.
Proof. induction a as [|c a IH]; simpl; [reflexivity|now rewrite IH]. Qed.

Lemma substring_0_length (m : nat) (s : string) :
  String.length (substring 0 m s) = Nat.min m (String.length s).
Proof.
  revert s. induction m as [|m IH]; intros s.
  - now destruct s.
  - destruct s as [|c s]; [reflexivity|]. simpl. now rewrite IH.
Qed.

Lemma substring_0_all (m : nat) (s : string) :
  (String.length s <= m)%nat -> substring 0 m s = s.
Proof.
  revert s. induction m as [|m IH]; intros s H.
  - destruct s; [reflexivity|simpl in H; lia].
  - destruct s as [|c s]; [reflexivity|].
    simpl in *. rewrite IH; [reflexivity|lia].
Qed.

Lemma substring_0_app (m : nat) (a b : string) :
  (m <= String.length a)%nat ->
  substring 0 m (a ++ b) = substring 0 m a.
Proof.
  revert a. induction m as [|m IH]; intros a H.
  - now destruct a, b.
  - destruct a as [|c a]; [simpl in H; lia|].
    simpl in *. rewrite IH; [reflexivity|lia].
Qed.

(** X20. Only the first 5000 characters of the transcript or text reach
    any of the three prompts: anything appended to a text that already has
    5000 characters or more leaves each prompt unchanged. *)
Theorem prompts_ignore_tail (text tail : string) :
  (5000 <= String.length text)%nat ->
  (forall context question,
      askPrompt (text ++ tail) context question =
      askPrompt text context question) /\
  summarizePrompt (text ++ tail) = summarizePrompt text /\
  (forall currentSummary,
      expandPrompt (text ++ tail) currentSummary =
      expandPrompt text currentSummary).
Proof.
  intros H. unfold askPrompt, summarizePrompt, expandPrompt.
  rewrite (substring_0_app 5000 text tail H). repeat split.
Qed.

Lemma substring_0_prefix (m : nat) (s : string) :
  exists dropped, s = (substring 0 m s ++ dropped)%string.
Proof.
  revert s. induction m as [|m IH]; intros s.
  - exists s. now destruct s.
  - destruct s as [|c s]; [now exists ""|].
    destruct (IH s) as [dropped H]. exists dropped.
    simpl. now rewrite <- H.
Qed.

Lemma repeatChar_length (c : ascii) (n : nat) :
  String.length (repeatChar c n) = n.
Proof. induction n as [|n IH]; simpl; [reflexivity|now rewrite IH]. Qed.

Lemma prompts_ignore_tail_witness :
  summarizePrompt (repeatChar "a" 5000 ++ " and more") =
  summarizePrompt (repeatChar "a" 5000).
Proof.
  apply (prompts_ignore_tail (repeatChar "a" 5000) " and more").
  rewrite repeatChar_length. apply Nat.le_refl.
Defined.

(** X21. The prompt of /api/summarize is the fixed request, then the first
    5000 characters of the text (all of it when it is shorter), then three
    dots; it is never longer than 5000 + 59 characters. *)
Theorem summarizePrompt_bounds (text : string) :
  exists kept dropped,
    text = (kept ++ dropped)%string /\
    String.length kept = Nat.min 5000 (String.length text) /\
    summarizePrompt text =
    ("Please provide a concise summary of the following text: " ++
     kept ++ "...")%string /\
    (String.length (summarizePrompt text) <= 5000 + 59)%nat.
Proof.
  destruct (substring_0_prefix 5000 text) as [dropped Hsplit].
  exists (substring 0 5000 text), dropped.
  split; [exact Hsplit|]. split; [apply substring_0_length|].
  split; [reflexivity|].
  unfold summarizePrompt.
  rewrite !string_length_app, substring_0_length.
  change (String.length
            "Please provide a concise summary of the following text: ")
    with 56%nat.
  change (String.length "...") with 3%nat.
  pose proof (Nat.le_min_l 5000 (String.length text)). lia.
Qed.

(** ** The conversation history *)

Lemma occursIn_refl (s : string) : occursIn s s.
Proof. exists "", "". simpl. now rewrite string_app_nil_r. Qed.

Lemma occursIn_app_r (p a b : string) :
  occursIn p b -> occursIn p (a ++ b).
Proof.
  intros (before & after & ->). exists (a ++ before)%string, after.
  now rewrite string_app_assoc.
Qed.

Lemma occursIn_app_l (p a b : string) :
  occursIn p a -> occursIn p (a ++ b).
Proof.
  intros (before & after & ->). exists before, (after ++ b)%string.
  now rewrite !string_app_assoc.
Qed.

Lemma occursIn_concat (sep x : string) (l : list string) :
  In x l -> occursIn x (String.concat sep l).
Proof.
  induction l as [|y rest IH]; intros Hin; [contradiction|].
  cbn [String.concat]. destruct rest as [|z rest].
  - destruct Hin as [->|[]]. apply occursIn_refl.
  - destruct Hin as [->|Hin].
    + apply occursIn_app_l, occursIn_refl.
    + apply occursIn_app_r, occursIn_app_r, IH, Hin.
Qed.

(** X22. The history is not truncated: every message of a non-empty
    history appears in the prompt of /api/ask-ai in full, as a line
    "Human: ..." when its role is "user" and "Assistant: ..." for any
    other role. *)
Theorem askPrompt_has_history
    (transcript : string) (msgs : list ChatMessage)
    (question : option string) (msg : ChatMessage) :
  In msg msgs ->
  occursIn ((if role msg =? "user" then "Human: " else "Assistant: ") ++
            content msg)
           (askPrompt transcript (conversationContext (Some msgs)) question).
Proof.
  intros Hin.
  assert (Hline : historyLine msg =
    ((if role msg =? "user" then "Human: " else "Assistant: ") ++
     content msg)%string).
  { unfold historyLine. now destruct (role msg =? "user"). }
  rewrite <- Hline.
  assert (Hctx : occursIn (historyLine msg)
                          (conversationContext (Some msgs))).
  { unfold conversationContext. destruct msgs as [|m0 rest]; [contradiction|].
    cbn [nonEmpty]. rewrite join_concat.
    apply occursIn_app_r, occursIn_app_r, occursIn_app_l.
    apply occursIn_concat, in_map, Hin. }
  unfold askPrompt.
  do 7 apply occursIn_app_r. now apply occursIn_app_l.
Qed.

Lemma askPrompt_has_history_witness :
  occursIn "Assistant: It is about cats."
    (askPrompt "A video about cats."
       (conversationContext
          (Some [mkChatMessage "user" "What is it about?";
                 mkChatMessage "model" "It is about cats."]))
       (Some "Which cats?")).
Proof.
  apply (askPrompt_has_history "A video about cats."
           [mkChatMessage "user" "What is it about?";
            mkChatMessage "model" "It is about cats."]
           (Some "Which cats?")
           (mkChatMessage "model" "It is about cats.")).
  simpl. auto.
Defined.

(** ** The handlers *)

(** X23. Each of the three AI endpoints sends to the model exactly the
    prompt built from its body, once, when the body has the transcript or
    text, and nothing when it has not. It always answers: 200 with the
    model's text ([answer] for /api/ask-ai, [summary] for the two others)
    when the model answered that prompt, 500 with the model's error
    message when the model threw, and 500 with the TypeError message when
    the transcript or text is missing. *)
Theorem ai_endpoints_respond (ai : AiWorld) :
  (forall body,
      aiContract ai answer
        (option_map
           (fun t => askPrompt t (conversationContext (history body))
                       (question body))
           (transcript body))
        (ask_ai ai body)) /\
  (forall body_text,
      aiContract ai summary (option_map summarizePrompt body_text)
        (summarize ai body_text)) /\
  (forall body_text currentSummary,
      aiContract ai summary
        (option_map (fun t => expandPrompt t currentSummary) body_text)
        (expand_summary ai body_text currentSummary)).
Proof.
  repeat split.
  - intros body. unfold ask_ai, aiContract.
    destruct (transcript body) as [t|]; cbn [option_map].
    + destruct (generateContent ai _) as [text|e] eqn:Hg; split;
        try discriminate; intros p Hp; injection Hp as <-;
        (split; [reflexivity|]); split; intros x Hx;
        rewrite Hx in Hg; try discriminate Hg;
        injection Hg as <-; repeat split.
    + split; [intros _; repeat split|discriminate].
  - intros body_text. unfold summarize, aiContract.
    destruct body_text as [t|]; cbn [option_map].
    + destruct (generateContent ai _) as [text|e] eqn:Hg; split;
        try discriminate; intros p Hp; injection Hp as <-;
        (split; [reflexivity|]); split; intros x Hx;
        rewrite Hx in Hg; try discriminate Hg;
        injection Hg as <-; repeat split.
    + split; [intros _; repeat split|discriminate].
  - intros body_text currentSummary. unfold expand_summary, aiContract.
    destruct body_text as [t|]; cbn [option_map].
    + destruct (generateContent ai _) as [text|e] eqn:Hg; split;
        try discriminate; intros p Hp; injection Hp as <-;
        (split; [reflexivity|]); split; intros x Hx;
        rewrite Hx in Hg; try discriminate Hg;
        injection Hg as <-; repeat split.
    + split; [intros _; repeat split|discriminate].
Qed.
